(** * The availability QC plugin (scqc, qcplugin_availability.cpp)

    A shallow embedding of [QcPluginAvailability]: the rounding helper
    [Private::round], the evaluator [availability], the report emitter
    [generateReport] and the timeout injector [timeoutTask].

    Conventions of the embedding
    - [Core::Time] has microsecond resolution: a time is the number of
      microseconds since the epoch, a [Z]; the default-constructed
      [Core::Time()] is [0].  A time span is a [Z] of microseconds and its
      conversion to [double] is the rational [us / 10^6].
    - a finite [double] is an exact rational ([Q]); the quotient of two
      finite doubles is a [double] value that may be infinite or not a
      number, as IEEE division by zero gives it.  Rational values are
      compared with [==], never with Leibniz equality.
    - [int] is [Z]; conversions and sums are taken inside the range of
      [int].

    The embedding is exact where the program computes on times, which are
    integers, and idealised where it computes on [double] and [int]: sums,
    products and quotients of doubles are not rounded, there is one zero,
    and an [int] does not overflow.  A property that depends on these
    carries the conditions under which the program's arithmetic agrees
    with the embedding as hypotheses: [staysInInt] (no conversion to [int]
    and no [int] sum of the run leaves the range of a 32-bit [int]),
    [boundariesClear] (no boundary lies within [margin] of the half-sample
    tolerance, where a rounded quotient could decide the comparison the
    other way) and [ratesPositive] (no sampling frequency is a zero of
    either sign). *)

From Stdlib Require Import ZArith QArith Qround Qabs List ListSet Bool Lia Lqa
  String.
Import ListNotations.

Local Open Scope Z_scope.

(** ** Doubles that come out of a division *)

Module Double.

Inductive double : Type :=
| Fin (q : Q)
| PInf
| NInf
| NaN.

(** [x / y] on finite operands. *)
Definition fdiv (x y : Q) : double :=
  if Qeq_bool y 0 then
    match (x ?= 0)%Q with
    | Gt => PInf
    | Lt => NInf
    | Eq => NaN
    end
  else Fin (x / y).

(** [a > b]; every comparison with a NaN is false. *)
Definition fgt (a b : double) : bool :=
  match a, b with
  | NaN, _ | _, NaN => false
  | Fin x, Fin y => negb (Qle_bool x y)
  | PInf, PInf => false
  | PInf, _ => true
  | Fin _, NInf => true
  | _, _ => false
  end.

Definition flt (a b : double) : bool := fgt b a.

(** [a <= b]. *)
Definition fle (a b : double) : bool :=
  match a, b with
  | NaN, _ | _, NaN => false
  | Fin x, Fin y => Qle_bool x y
  | NInf, _ => true
  | _, PInf => true
  | _, _ => false
  end.

(** Equality of values: rationals up to [==]. *)
Definition feq (a b : double) : Prop :=
  match a, b with
  | Fin x, Fin y => (x == y)%Q
  | PInf, PInf | NInf, NInf | NaN, NaN => True
  | _, _ => False
  end.

Definition ofInt (n : Z) : double := Fin (inject_Z n).

End Double.

Import Double.

(** ** Seiscomp::Private *)

Module Private.

(** [int round(double val) { return static_cast<int>(val + 0.5); }]
    The conversion to [int] drops the fractional part, that is, it rounds
    toward zero ([Z.quot]). *)
Definition round (val : Q) : Z :=
  let s := (val + (1 # 2))%Q in
  Z.quot (Qnum s) (Zpos (Qden s)).

End Private.

(** ** Seiscomp::Core: times and time windows *)

Module Core.

Definition Time : Type := Z.
Definition TimeSpan : Type := Z.

(** [Core::Time()] *)
Definition Time0 : Time := 0.

(** [static_cast<double>(span)]: seconds. *)
Definition toDouble (span : TimeSpan) : Q := span # 1000000.

Record TimeWindow : Type := mkTimeWindow {
  startTime : Time;
  endTime : Time
}.

(** Modelled from the spec: [Core::TimeWindow] is declared outside the
    sources at hand; section 4.1 gives [length], [contains] and
    [overlaps] of the half-open window. *)
Definition length (tw : TimeWindow) : TimeSpan :=
  endTime tw - startTime tw.

Definition contains (a b : TimeWindow) : bool :=
  (startTime a <=? startTime b) && (endTime b <=? endTime a).

Definition overlaps (a b : TimeWindow) : bool :=
  (startTime a <? endTime b) && (startTime b <? endTime a).

End Core.

(** ** QcParameter and QcBuffer *)

Record QcParameter : Type := mkQcParameter {
  recordStartTime : Core.Time;
  recordEndTime : Core.Time;
  recordSamplingFrequency : Q;
  parameter : Q
}.

(** [recordSamplingFrequency == -1.0]: a timeout entry. *)
Definition isTimeout (qcp : QcParameter) : bool :=
  Qeq_bool (recordSamplingFrequency qcp) (-1).

Module QcBuffer.

Definition t : Type := list QcParameter.

Definition empty (buf : t) : bool :=
  match buf with [] => true | _ => false end.

Definition front (buf : t) : option QcParameter := hd_error buf.

Definition back (buf : t) : option QcParameter :=
  hd_error (rev buf).

(** Modelled from the spec: [QcBuffer] is declared outside the sources at
    hand; section 4.2 gives [startTime] as the front's [recordStartTime],
    [endTime] as the back's [recordEndTime], [length] as their
    difference, and [push] as an append that never reorders. *)
Definition startTime (buf : t) : Core.Time :=
  match front buf with
  | Some qcp => recordStartTime qcp
  | None => Core.Time0
  end.

Definition endTime (buf : t) : Core.Time :=
  match back buf with
  | Some qcp => recordEndTime qcp
  | None => Core.Time0
  end.

Definition length (buf : t) : Core.TimeSpan :=
  endTime buf - startTime buf.

Definition push_back (buf : t) (qcp : QcParameter) : t :=
  buf ++ [qcp].

End QcBuffer.

(** ** QcPluginAvailability::availability *)

Record LoopState : Type := mkLoopState {
  effectiveSamples : Z;
  gapCount : Z;
  overlapCount : Z;
  lastTime : Core.Time
}.

Definition initState : LoopState :=
  {| effectiveSamples := 0; gapCount := 0; overlapCount := 0;
     lastTime := Core.Time0 |}.

(** How an iteration of the [for] loop ends. *)
Inductive Flow : Type := Continue | Break.

(** The gap and overlap test of one real record (lines 219-227). *)
Definition detect (qcp : QcParameter) (s : LoopState) : LoopState :=
  if negb (lastTime s =? Core.Time0) then
    let fs := recordSamplingFrequency qcp in
    let diff := Core.toDouble (recordStartTime qcp - lastTime s) in
    let g := if fgt (Fin diff) (fdiv (1 # 2) fs)
             then gapCount s + 1 else gapCount s in
    let o := if flt (Fin diff) (fdiv (- (1 # 2)) fs)
             then overlapCount s + 1 else overlapCount s in
    {| effectiveSamples := effectiveSamples s; gapCount := g;
       overlapCount := o; lastTime := lastTime s |}
  else s.

Definition setLastTime (tm : Core.Time) (s : LoopState) : LoopState :=
  {| effectiveSamples := effectiveSamples s; gapCount := gapCount s;
     overlapCount := overlapCount s; lastTime := tm |}.

Definition setEffective (n : Z) (s : LoopState) : LoopState :=
  {| effectiveSamples := n; gapCount := gapCount s;
     overlapCount := overlapCount s; lastTime := lastTime s |}.

(** One iteration of the loop body (lines 208-257). *)
Definition body (tw : Core.TimeWindow) (estimatedSamples : Z)
    (qcp : QcParameter) (s : LoopState) : LoopState * Flow :=
  let fs := recordSamplingFrequency qcp in
  if isTimeout qcp then (s, Continue)
  else
    let tw2 := Core.mkTimeWindow (recordStartTime qcp) (recordEndTime qcp) in
    let sampleCount :=
      Private.round (Core.toDouble (Core.length tw2) * fs) in
    let s := setLastTime (recordEndTime qcp) (detect qcp s) in
    if Core.contains tw tw2 then
      (setEffective (effectiveSamples s + sampleCount) s, Continue)
    else if Core.contains tw2 tw then
      (setEffective estimatedSamples s, Break)
    else if Core.overlaps tw tw2 then
      let dt := Core.toDouble (Core.startTime tw - recordStartTime qcp) in
      if negb (Qle_bool dt 0) then
        (setEffective
           (effectiveSamples s + (sampleCount - Private.round (dt * fs))) s,
         Continue)
      else
        let dt := Core.toDouble (recordEndTime qcp - Core.endTime tw) in
        if negb (Qle_bool dt 0) then
          (setEffective
             (effectiveSamples s + (sampleCount - Private.round (dt * fs))) s,
           Continue)
        else (s, Continue)
    else (s, Continue).

(** The [for] loop over the buffer. *)
Fixpoint loop (tw : Core.TimeWindow) (estimatedSamples : Z)
    (buf : QcBuffer.t) (s : LoopState) : LoopState :=
  match buf with
  | [] => s
  | qcp :: rest =>
      match body tw estimatedSamples qcp s with
      | (s', Break) => s'
      | (s', Continue) => loop tw estimatedSamples rest s'
      end
  end.

(** The returned vector: availability, gap count, overlap count. *)
Definition Result : Type := (double * double * double)%type.

Definition zeros : Result := (Fin 0, Fin 0, Fin 0).

Definition window (buf : QcBuffer.t) : Core.TimeWindow :=
  Core.mkTimeWindow (QcBuffer.startTime buf) (QcBuffer.endTime buf).

(** [estimatedSamples] for a buffer whose front entry is [qcp]. *)
Definition estimated (buf : QcBuffer.t) (qcp : QcParameter) : Z :=
  Private.round
    (Core.toDouble (Core.length (window buf)) * recordSamplingFrequency qcp).

(** The state in which the loop leaves the counters. *)
Definition scan (buf : QcBuffer.t) (qcp : QcParameter) : LoopState :=
  loop (window buf) (estimated buf qcp) buf initState.

(** [100.0 * effectiveSamples / estimatedSamples], then the clamp. *)
Definition ratio (effective estimatedSamples : Z) : double :=
  let r := fdiv (100 * inject_Z effective) (inject_Z estimatedSamples) in
  if fgt r (Fin 100) then Fin 100 else r.

Definition availability (buf : QcBuffer.t) : Result :=
  match QcBuffer.front buf with
  | None => zeros
  | Some qcp =>
      if isTimeout qcp then zeros
      else
        let s := scan buf qcp in
        (ratio (effectiveSamples s) (estimated buf qcp),
         ofInt (gapCount s), ofInt (overlapCount s))
  end.

(** Equality of returned vectors. *)
Definition Result_eq (r1 r2 : Result) : Prop :=
  match r1, r2 with
  | (a1, g1, o1), (a2, g2, o2) =>
      feq a1 a2 /\ feq g1 g2 /\ feq o1 o2
  end.

(** [result[i]] *)
Definition at_ (result : Result) (i : nat) : double :=
  match result, i with
  | (a, _, _), O => a
  | (_, g, _), S O => g
  | (_, _, o), _ => o
  end.

(** ** Vocabulary of the properties *)

(** The record window of an entry. *)
Definition recordWindow (qcp : QcParameter) : Core.TimeWindow :=
  Core.mkTimeWindow (recordStartTime qcp) (recordEndTime qcp).

(** A valid entry (data model, section 3): a timeout marker, or a record
    whose sampling frequency is not negative and which, when the frequency
    is positive, ends after it starts. *)
Definition validEntry (qcp : QcParameter) : bool :=
  isTimeout qcp
  || (Qle_bool 0 (recordSamplingFrequency qcp)
      && (Qle_bool (recordSamplingFrequency qcp) 0
          || (recordStartTime qcp <? recordEndTime qcp))).

(** [0 <= a <= 100] on doubles. *)
Definition inRange (a : double) : bool :=
  fle (Fin 0) a && fle a (Fin 100).

(** [t'] is the time [t] multiplied by [k]. *)
Definition scaledTime (k : Q) (t t' : Core.Time) : Prop :=
  (inject_Z t' == k * inject_Z t)%Q.

(** [e'] is [e] with every time multiplied by [kt] and the sampling
    frequency multiplied by [kf]. *)
Definition rescaled (kt kf : Q) (e e' : QcParameter) : Prop :=
  scaledTime kt (recordStartTime e) (recordStartTime e') /\
  scaledTime kt (recordEndTime e) (recordEndTime e') /\
  (recordSamplingFrequency e' == kf * recordSamplingFrequency e)%Q.

Definition scaledWindow (k : Q) (tw tw' : Core.TimeWindow) : Prop :=
  scaledTime k (Core.startTime tw) (Core.startTime tw') /\
  scaledTime k (Core.endTime tw) (Core.endTime tw').

(** Two loop states that agree on the counters and whose [lastTime]s are
    in the ratio [k]. *)
Definition scaledState (k : Q) (s s' : LoopState) : Prop :=
  effectiveSamples s' = effectiveSamples s /\
  gapCount s' = gapCount s /\
  overlapCount s' = overlapCount s /\
  scaledTime k (lastTime s) (lastTime s').

(** Every entry of the buffer is a real record. *)
Definition allReal (buf : QcBuffer.t) : bool :=
  forallb (fun qcp => negb (isTimeout qcp)) buf.

Definition real (start_us end_us : Z) (fs : Q) : QcParameter :=
  {| recordStartTime := start_us; recordEndTime := end_us;
     recordSamplingFrequency := fs; parameter := 0 |}.

Definition S2 : QcBuffer.t :=
  [real 0 1000000 100; real 1020000 2000000 100].

Definition S4 : QcBuffer.t :=
  [real (-5000000) 15000000 100; real 20000000 25000000 100].

(** A record of one millisecond at 100 Hz: a tenth of a sample. *)
Definition shortRecord : QcBuffer.t := [real 0 1000 100].

(** A slow front record followed, after 0.1 s, by a fast one. *)
Definition slowThenFast : QcBuffer.t :=
  [real 0 100000 1; real 200000 300000 1000].

(** Two records 4 ms apart at 100 Hz, and the same with every time and
    every sampling frequency doubled. *)
Definition nearlyContiguous : QcBuffer.t :=
  [real 0 1000000 100; real 1004000 2000000 100].

Definition nearlyContiguousDoubled : QcBuffer.t :=
  [real 0 2000000 200; real 2008000 4000000 200].

(** The same with every time doubled and every frequency halved. *)
Definition nearlyContiguousSlowed : QcBuffer.t :=
  [real 0 2000000 50; real 2008000 4000000 50].

Definition timeoutEntry (start_us end_us : Z) : QcParameter :=
  {| recordStartTime := start_us; recordEndTime := end_us;
     recordSamplingFrequency := -1;
     parameter := Core.toDouble (end_us - start_us) |}.

(** A front record that ends after the back record does: its window
    contains the analysis window [0 s, 3 s). *)
Definition longFront : QcBuffer.t :=
  [real 0 10000000 100; real 2000000 3000000 100].

(** A record that ends at the zero time, then one five seconds later; and
    the same pair one second later. *)
Definition endsAtEpoch : QcBuffer.t :=
  [real (-1000000) 0 100; real 5000000 6000000 100].

Definition endsAfterEpoch : QcBuffer.t :=
  [real 0 1000000 100; real 6000000 7000000 100].

(** A buffer whose front entry is a timeout marker. *)
Definition leadingTimeout : QcBuffer.t :=
  [timeoutEntry 0 30000000; real 30000000 31000000 100].

(** ** The plugin: host, state and the monad of its methods *)

(** What the host application provides: the mapping from a stream ID to a
    waveform ID, the creator ID of the application, and the clock.
    [Core::Time::UTC()] is read many times; [utc n] is its n-th reading. *)
Class Host : Type := mkHost {
  WaveformStreamID : Type;
  getWaveformID : string -> WaveformStreamID;
  appCreatorID : string;
  utc : nat -> Core.Time
}.

Module DataModel.

Record WaveformQuality `{Host} : Type := mkWaveformQuality {
  waveformID : WaveformStreamID;
  creatorID : string;
  created : Core.Time;
  start : Core.Time;
  end_ : Core.Time;
  type : string;
  parameter : string;
  value : double;
  lowerUncertainty : Q;
  upperUncertainty : Q;
  windowLength : Q
}.

End DataModel.

(** [_parameterNames], filled by the constructor and never changed. *)
Definition _parameterNames : list string :=
  ["availability"; "gaps count"; "overlaps count"]%string.

(** The mutable members of the plugin, the queue [pushObject] fills, and
    the number of clock readings taken so far. *)
Record Plugin `{Host} : Type := mkPlugin {
  _qcBuffer : QcBuffer.t;
  _lastRecordEndTime : Core.Time;
  _streamID : string;
  objects : list DataModel.WaveformQuality;
  clockReads : nat
}.

Section Methods.

Context `{Host}.

Definition M (A : Type) : Type := Plugin -> A * Plugin.

Definition ret {A : Type} (a : A) : M A := fun p => (a, p).

Definition bind {A B : Type} (c : M A) (k : A -> M B) : M B :=
  fun p => let (a, p') := c p in k a p'.

Definition exec {A : Type} (c : M A) (p : Plugin) : Plugin := snd (c p).

(** [Core::Time::UTC()] *)
Definition UTC : M Core.Time :=
  fun p =>
    (utc (clockReads p),
     {| _qcBuffer := _qcBuffer p;
        _lastRecordEndTime := _lastRecordEndTime p;
        _streamID := _streamID p;
        objects := objects p;
        clockReads := S (clockReads p) |}).

(** Modelled from the spec: [pushObject] belongs to the plugin base
    class, outside the sources at hand; section 4.5 has the reports
    handed to the sink in the order of emission. *)
Definition pushObject (obj : DataModel.WaveformQuality) : M unit :=
  fun p =>
    (tt,
     {| _qcBuffer := _qcBuffer p;
        _lastRecordEndTime := _lastRecordEndTime p;
        _streamID := _streamID p;
        objects := objects p ++ [obj];
        clockReads := clockReads p |}).

Definition getStreamID : M string := fun p => (_streamID p, p).

Definition getBuffer : M QcBuffer.t := fun p => (_qcBuffer p, p).

Definition getLastRecordEndTime : M Core.Time :=
  fun p => (_lastRecordEndTime p, p).

Definition setLastRecordEndTime (tm : Core.Time) : M unit :=
  fun p =>
    (tt,
     {| _qcBuffer := _qcBuffer p;
        _lastRecordEndTime := tm;
        _streamID := _streamID p;
        objects := objects p;
        clockReads := clockReads p |}).

(** [_qcBuffer->push_back(&_streamID, qcp)] *)
Definition bufferPushBack (qcp : QcParameter) : M unit :=
  fun p =>
    (tt,
     {| _qcBuffer := QcBuffer.push_back (_qcBuffer p) qcp;
        _lastRecordEndTime := _lastRecordEndTime p;
        _streamID := _streamID p;
        objects := objects p;
        clockReads := clockReads p |}).

End Methods.

Declare Scope plugin_scope.
Delimit Scope plugin_scope with plugin.
Notation "x <- c ;; k" := (bind c (fun x => k))
  (at level 61, c at next level, right associativity) : plugin_scope.
Notation "c ;;; k" := (bind c (fun _ => k))
  (at level 61, right associativity) : plugin_scope.

Section Plugin.

Context `{Host}.
Local Open Scope plugin_scope.

(** The object that one of the three blocks of [generateReport] fills
    (lines 125-136, 139-150, 153-164); the blocks differ by the index [i]
    only. *)
Definition quality (streamID : string) (now : Core.Time)
    (buf : QcBuffer.t) (result : Result) (i : nat)
    : DataModel.WaveformQuality :=
  {| DataModel.waveformID := getWaveformID streamID;
     DataModel.creatorID := appCreatorID;
     DataModel.created := now;
     DataModel.start := QcBuffer.startTime buf;
     DataModel.end_ := QcBuffer.endTime buf;
     DataModel.type := "report"%string;
     DataModel.parameter := nth i _parameterNames ""%string;
     DataModel.value := at_ result i;
     DataModel.lowerUncertainty := 0;
     DataModel.upperUncertainty := 0;
     DataModel.windowLength := Core.toDouble (QcBuffer.length buf) |}.

(** One block: build the object, reading the clock for [setCreated], and
    push it. *)
Definition report (buf : QcBuffer.t) (result : Result) (i : nat) : M unit :=
  streamID <- getStreamID ;;
  now <- UTC ;;
  pushObject (quality streamID now buf result i).

(** [QcPluginAvailability::generateReport] *)
Definition generateReport (buf : QcBuffer.t) : M unit :=
  if QcBuffer.empty buf then ret tt
  else
    let result := availability buf in
    report buf result 0 ;;;
    report buf result 1 ;;;
    report buf result 2.

(** Modelled from the spec: [sendMessages] belongs to the plugin base
    class, outside the sources at hand; section 4.4 has the injector
    append the timeout entry and invoke report emission. *)
Definition sendMessages : M unit :=
  buf <- getBuffer ;;
  generateReport buf.

(** [QcPluginAvailability::timeoutTask] *)
Definition timeoutTask : M unit :=
  buf <- getBuffer ;;
  if QcBuffer.empty buf then ret tt
  else
    now <- UTC ;;
    (* origin of previous buffer item was a real record *)
    match QcBuffer.back buf with
    | Some bk =>
        if negb (isTimeout bk)
        then setLastRecordEndTime (recordEndTime bk)
        else ret tt
    | None => ret tt
    end ;;;
    last <- getLastRecordEndTime ;;
    bufferPushBack
      {| recordStartTime := last;
         recordEndTime := now;
         recordSamplingFrequency := -1;
         parameter := Core.toDouble (now - last) |} ;;;
    sendMessages.

(** [n] successive ticks of the timer. *)
Fixpoint ticks (n : nat) (p : Plugin) : Plugin :=
  match n with
  | O => p
  | S n' => ticks n' (exec timeoutTask p)
  end.

(** The time the next timeout entry will start at: the end of the back
    entry when that is a real record, the stored [_lastRecordEndTime]
    otherwise. *)
Definition anchor (p : Plugin) : Core.Time :=
  match QcBuffer.back (_qcBuffer p) with
  | Some bk =>
      if isTimeout bk then _lastRecordEndTime p else recordEndTime bk
  | None => _lastRecordEndTime p
  end.

End Plugin.

(** A host whose clock advances by one microsecond per reading, from
    50 s on. *)
Definition readings : list Core.Time :=
  [50000000; 50000001; 50000002; 50000003; 50000004; 50000005;
   50000006; 50000007; 50000008; 50000009; 50000010; 50000011].

Definition tickingHost : Host :=
  {| WaveformStreamID := string;
     getWaveformID := fun s => s;
     appCreatorID := "scqc"%string;
     utc := fun n => nth n readings 50000012 |}.

Definition plugin0 (h : Host) (buf : QcBuffer.t) : @Plugin h :=
  {| _qcBuffer := buf; _lastRecordEndTime := Core.Time0;
     _streamID := "GE.APE..BHZ"%string; objects := []; clockReads := 0 |}.

(** ** More vocabulary for the evaluator *)

(** *** Where the program's arithmetic agrees with the embedding *)

(** [INT_MIN <= z <= INT_MAX] for a 32-bit [int]. *)
Definition fitsInt (z : Z) : bool :=
  (-2147483648 <=? z) && (z <=? 2147483647).

(** Every [int] that one iteration of the loop body computes on the way
    it takes fits a 32-bit [int]: the sample count, the counters, the
    samples cut off and the new effective count. *)
Definition bodyFits (tw : Core.TimeWindow) (qcp : QcParameter)
    (s : LoopState) : bool :=
  let fs := recordSamplingFrequency qcp in
  if isTimeout qcp then true
  else
    let tw2 := Core.mkTimeWindow (recordStartTime qcp) (recordEndTime qcp) in
    let sampleCount :=
      Private.round (Core.toDouble (Core.length tw2) * fs) in
    let s := setLastTime (recordEndTime qcp) (detect qcp s) in
    fitsInt sampleCount && fitsInt (gapCount s) && fitsInt (overlapCount s)
    && (if Core.contains tw tw2 then
          fitsInt (effectiveSamples s + sampleCount)
        else if Core.contains tw2 tw then true
        else if Core.overlaps tw tw2 then
          let dt := Core.toDouble (Core.startTime tw - recordStartTime qcp) in
          if negb (Qle_bool dt 0) then
            fitsInt (Private.round (dt * fs))
            && fitsInt (sampleCount - Private.round (dt * fs))
            && fitsInt (effectiveSamples s
                        + (sampleCount - Private.round (dt * fs)))
          else
            let dt := Core.toDouble (recordEndTime qcp - Core.endTime tw) in
            if negb (Qle_bool dt 0) then
              fitsInt (Private.round (dt * fs))
              && fitsInt (sampleCount - Private.round (dt * fs))
              && fitsInt (effectiveSamples s
                          + (sampleCount - Private.round (dt * fs)))
            else true
        else true).

Fixpoint loopFits (tw : Core.TimeWindow) (estimatedSamples : Z)
    (buf : QcBuffer.t) (s : LoopState) : bool :=
  match buf with
  | [] => true
  | qcp :: rest =>
      bodyFits tw qcp s
      && match body tw estimatedSamples qcp s with
         | (_, Break) => true
         | (s', Continue) => loopFits tw estimatedSamples rest s'
         end
  end.

(** The run of the evaluator on [buf] stays inside the 32-bit [int]: the
    estimated count and every [int] the loop computes. *)
Definition staysInInt (buf : QcBuffer.t) : bool :=
  match QcBuffer.front buf with
  | None => true
  | Some qcp =>
      if isTimeout qcp then true
      else
        fitsInt (estimated buf qcp)
        && loopFits (window buf) (estimated buf qcp) buf initState
  end.

(** The distance, in samples, kept from the half-sample tolerance: far
    more than the rounding of a [double] quotient can bridge. *)
Definition margin : Q := 1 # 1000000000.

(** The boundary between a record that ended at [last] and [qcp] is clear
    of the tolerance: the sampling frequency of [qcp] is not zero and the
    difference, in samples, is at least [margin] away from one half. *)
Definition clearOfTolerance (last : Core.Time) (qcp : QcParameter) : bool :=
  negb (Qeq_bool (recordSamplingFrequency qcp) 0)
  && Qle_bool margin
       (Qabs.Qabs
          (Qabs.Qabs (Core.toDouble (recordStartTime qcp - last)
                      * recordSamplingFrequency qcp)
           - (1 # 2))).

Fixpoint allClear (last : Core.Time) (buf : QcBuffer.t) : bool :=
  match buf with
  | [] => true
  | qcp :: rest =>
      clearOfTolerance last qcp && allClear (recordEndTime qcp) rest
  end.

(** Every boundary between two successive records of the buffer is clear
    of the tolerance. *)
Definition boundariesClear (buf : QcBuffer.t) : bool :=
  match buf with
  | [] => true
  | qcp :: rest => allClear (recordEndTime qcp) rest
  end.

(** Every real record has a positive sampling frequency. *)
Definition ratesPositive (buf : QcBuffer.t) : bool :=
  forallb (fun qcp =>
             isTimeout qcp || negb (Qle_bool (recordSamplingFrequency qcp) 0))
          buf.

(** The number of real records of a buffer. *)
Definition realCount (buf : QcBuffer.t) : nat :=
  List.length (filter (fun qcp => negb (isTimeout qcp)) buf).

(** No real record has a negative sampling frequency. *)
Definition ratesNonneg (buf : QcBuffer.t) : bool :=
  forallb (fun qcp =>
             isTimeout qcp || Qle_bool 0 (recordSamplingFrequency qcp)) buf.

(** [qcp] starts within half a sample, at its own rate, of the time
    [last]. *)
Definition withinTolerance (last : Core.Time) (qcp : QcParameter) : bool :=
  Qle_bool
    (Qabs.Qabs (Core.toDouble (recordStartTime qcp - last)
                * recordSamplingFrequency qcp))
    (1 # 2).

(** Every record of the list starts within half a sample of the end of the
    record before it, [last] being the end before the first. *)
Fixpoint chained (last : Core.Time) (buf : QcBuffer.t) : bool :=
  match buf with
  | [] => true
  | qcp :: rest =>
      withinTolerance last qcp && chained (recordEndTime qcp) rest
  end.

(** Every real record of the buffer lies inside the window. *)
Definition allInside (tw : Core.TimeWindow) (buf : QcBuffer.t) : bool :=
  forallb (fun qcp => isTimeout qcp || Core.contains tw (recordWindow qcp))
          buf.

(** [qcp] with its two times moved by [delta] microseconds. *)
Definition shift (delta : Z) (qcp : QcParameter) : QcParameter :=
  {| recordStartTime := recordStartTime qcp + delta;
     recordEndTime := recordEndTime qcp + delta;
     recordSamplingFrequency := recordSamplingFrequency qcp;
     parameter := parameter qcp |}.

Definition shiftWindow (delta : Z) (tw : Core.TimeWindow) : Core.TimeWindow :=
  Core.mkTimeWindow (Core.startTime tw + delta) (Core.endTime tw + delta).

(** No real record of the buffer ends at the time [t]. *)
Definition noEndAt (t : Core.Time) (buf : QcBuffer.t) : bool :=
  forallb (fun qcp => isTimeout qcp || negb (recordEndTime qcp =? t)) buf.

(** Two loop states with the same counters whose [lastTime]s are both
    unset, or both set and [delta] apart. *)
Definition shiftedState (delta : Z) (s s' : LoopState) : Prop :=
  effectiveSamples s' = effectiveSamples s /\
  gapCount s' = gapCount s /\
  overlapCount s' = overlapCount s /\
  ((lastTime s = Core.Time0 /\ lastTime s' = Core.Time0) \/
   (lastTime s <> Core.Time0 /\ lastTime s' <> Core.Time0 /\
    lastTime s' = lastTime s + delta)).

(** The timeout entry that a tick appends to the buffer of [p]. *)
Definition injected `{Host} (p : Plugin) : QcParameter :=
  {| recordStartTime := anchor p;
     recordEndTime := utc (clockReads p);
     recordSamplingFrequency := -1;
     parameter := Core.toDouble (utc (clockReads p) - anchor p) |}.

(** ** scautopick: Picker::Config (config.cpp) *)

Module Picker.

(** Modelled from the spec: [StringSet] is declared in config.h, outside
    the sources at hand; section 6 has these options typed as sets of
    strings.  A set is a list without duplicates; [insert] adds a string
    that is not there yet. *)
Definition StringSet : Type := list string.

Definition insert (x : string) (set : StringSet) : StringSet :=
  ListSet.set_add string_dec x set.

(** [set.insert(first, last)] *)
Definition insertAll (xs : list string) (set : StringSet) : StringSet :=
  fold_left (fun acc x => insert x acc) xs set.

Record Config : Type := mkConfig {
  amplitudeGroup : string;
  phaseHint : string;
  commentID : string;
  commentText : string;
  test : bool;
  offline : bool;
  dumpRecords : bool;
  useAllStreams : bool;
  calculateAmplitudes : bool;
  interpolateGaps : bool;
  maxGapLength : Q;
  defaultChannel : string;
  defaultFilter : string;
  defaultTriggerOnThreshold : Q;
  defaultTriggerOffThreshold : Q;
  minDuration : Q;
  maxDuration : Q;
  triggerDeadTime : Q;
  amplitudeMaxTimeWindow : Q;
  amplitudeMinOffset : Q;
  defaultTimeCorrection : Q;
  ringBufferSize : Q;
  leadTime : Q;
  initTime : Q;
  pickerType : string;
  secondaryPickerType : string;
  featureExtractionType : string;
  killPendingSecondaryProcessors : bool;
  sendDetections : bool;
  extraPickComments : bool;
  playback : bool;
  amplitudeList : StringSet;
  amplitudeUpdateList : StringSet
}.

(** [Picker::Config::Config()].  The constructor assigns neither the
    strings [commentID], [commentText], [secondaryPickerType],
    [featureExtractionType] nor the set [amplitudeUpdateList], which start
    empty, nor the flag [dumpRecords], whose first value the constructor
    does not decide: it is the argument. *)
Definition newConfig (dumpRecords0 : bool) : Config :=
  {| amplitudeGroup := "AMPLITUDE";
     phaseHint := "P";
     commentID := "";
     commentText := "";
     test := false;
     offline := false;
     dumpRecords := dumpRecords0;
     useAllStreams := false;
     calculateAmplitudes := true;
     interpolateGaps := false;
     maxGapLength := 9 # 2;
     defaultChannel := "BH";
     defaultFilter := "RMHP(10)>>ITAPER(30)>>BW(4,0.7,2)>>STALTA(2,80)";
     defaultTriggerOnThreshold := 3;
     defaultTriggerOffThreshold := 3 # 2;
     minDuration := -1;
     maxDuration := -1;
     triggerDeadTime := 30;
     amplitudeMaxTimeWindow := 10;
     amplitudeMinOffset := 3;
     defaultTimeCorrection := - (8 # 10);
     ringBufferSize := 5 * 60;
     leadTime := 60;
     initTime := 60;
     pickerType := "";
     secondaryPickerType := "";
     featureExtractionType := "";
     killPendingSecondaryProcessors := true;
     sendDetections := false;
     extraPickComments := false;
     playback := false;
     amplitudeList := insert "mB" (insert "mb" (insert "MLv" []));
     amplitudeUpdateList := [] |}.

(** The configuration of the application.  A getter throws when the option
    is not set or does not have the type asked for: that is [None]. *)
Record Application : Type := mkApplication {
  configGetString : string -> option string;
  configGetBool : string -> option bool;
  configGetDouble : string -> option Q;
  configGetStrings : string -> option (list string)
}.

(** [try { member = getter; } catch ( ... ) {}] *)
Definition tryAssign {A : Type} (got : option A) (member : A) : A :=
  match got with
  | Some v => v
  | None => member
  end.

(** [try { v = getter; set.clear(); set.insert(v.begin(), v.end()); }
     catch ( ... ) {}] *)
Definition tryReplace (got : option (list string)) (set : StringSet)
    : StringSet :=
  match got with
  | Some v => insertAll v []
  | None => set
  end.

(** [Picker::Config::init(const Client::Application *app)].  Every [try]
    block assigns one member from one option, and no block reads what
    another assigned, so the sequence of blocks is the record of their
    results. *)
Definition init (app : Application) (c : Config) : Config :=
  {| amplitudeGroup :=
       tryAssign (configGetString app "connection.amplitudeGroup")
                 (amplitudeGroup c);
     phaseHint := tryAssign (configGetString app "phaseHint") (phaseHint c);
     commentID := tryAssign (configGetString app "comment.ID") (commentID c);
     commentText :=
       tryAssign (configGetString app "comment.text") (commentText c);
     test := test c;
     offline := offline c;
     dumpRecords := dumpRecords c;
     useAllStreams :=
       tryAssign (configGetBool app "useAllStreams") (useAllStreams c);
     calculateAmplitudes :=
       tryAssign (configGetBool app "calculateAmplitudes")
                 (calculateAmplitudes c);
     interpolateGaps :=
       tryAssign (configGetBool app "gapInterpolation") (interpolateGaps c);
     maxGapLength :=
       tryAssign (configGetDouble app "thresholds.maxGapLength")
                 (maxGapLength c);
     defaultChannel := defaultChannel c;
     defaultFilter := tryAssign (configGetString app "filter") (defaultFilter c);
     defaultTriggerOnThreshold :=
       tryAssign (configGetDouble app "thresholds.triggerOn")
                 (defaultTriggerOnThreshold c);
     defaultTriggerOffThreshold :=
       tryAssign (configGetDouble app "thresholds.triggerOff")
                 (defaultTriggerOffThreshold c);
     minDuration :=
       tryAssign (configGetDouble app "thresholds.minDuration") (minDuration c);
     maxDuration :=
       tryAssign (configGetDouble app "thresholds.maxDuration") (maxDuration c);
     triggerDeadTime :=
       tryAssign (configGetDouble app "thresholds.deadTime")
                 (triggerDeadTime c);
     amplitudeMaxTimeWindow :=
       tryAssign (configGetDouble app "thresholds.amplMaxTimeWindow")
                 (amplitudeMaxTimeWindow c);
     amplitudeMinOffset :=
       tryAssign (configGetDouble app "thresholds.minAmplOffset")
                 (amplitudeMinOffset c);
     defaultTimeCorrection :=
       tryAssign (configGetDouble app "timeCorrection")
                 (defaultTimeCorrection c);
     ringBufferSize :=
       tryAssign (configGetDouble app "ringBufferSize") (ringBufferSize c);
     leadTime := tryAssign (configGetDouble app "leadTime") (leadTime c);
     initTime := tryAssign (configGetDouble app "initTime") (initTime c);
     pickerType := tryAssign (configGetString app "picker") (pickerType c);
     secondaryPickerType :=
       tryAssign (configGetString app "spicker") (secondaryPickerType c);
     featureExtractionType :=
       tryAssign (configGetString app "fx") (featureExtractionType c);
     killPendingSecondaryProcessors :=
       tryAssign (configGetBool app "killPendingSPickers")
                 (killPendingSecondaryProcessors c);
     sendDetections :=
       tryAssign (configGetBool app "sendDetections") (sendDetections c);
     extraPickComments :=
       tryAssign (configGetBool app "extraPickComments") (extraPickComments c);
     playback := tryAssign (configGetBool app "playback") (playback c);
     amplitudeList :=
       tryReplace (configGetStrings app "amplitudes") (amplitudeList c);
     amplitudeUpdateList :=
       tryReplace (configGetStrings app "amplitudes.enableUpdate")
                  (amplitudeUpdateList c) |}.

(** The options given on the command line. *)
Record CommandLine : Type := mkCommandLine {
  hasOption : string -> bool
}.

(** [Picker::Config::init(const System::CommandLine &commandline)] *)
Definition init_commandline (commandline : CommandLine) (c : Config)
    : Config :=
  {| amplitudeGroup := amplitudeGroup c;
     phaseHint := phaseHint c;
     commentID := commentID c;
     commentText := commentText c;
     test := hasOption commandline "test";
     offline :=
       hasOption commandline "offline" || hasOption commandline "ep";
     dumpRecords := hasOption commandline "dump-records";
     useAllStreams := useAllStreams c;
     calculateAmplitudes := calculateAmplitudes c;
     interpolateGaps := interpolateGaps c;
     maxGapLength := maxGapLength c;
     defaultChannel := defaultChannel c;
     defaultFilter := defaultFilter c;
     defaultTriggerOnThreshold := defaultTriggerOnThreshold c;
     defaultTriggerOffThreshold := defaultTriggerOffThreshold c;
     minDuration := minDuration c;
     maxDuration := maxDuration c;
     triggerDeadTime := triggerDeadTime c;
     amplitudeMaxTimeWindow := amplitudeMaxTimeWindow c;
     amplitudeMinOffset := amplitudeMinOffset c;
     defaultTimeCorrection := defaultTimeCorrection c;
     ringBufferSize := ringBufferSize c;
     leadTime := leadTime c;
     initTime := initTime c;
     pickerType := pickerType c;
     secondaryPickerType := secondaryPickerType c;
     featureExtractionType := featureExtractionType c;
     killPendingSecondaryProcessors := killPendingSecondaryProcessors c;
     sendDetections :=
       if hasOption commandline "send-detections" then true
       else sendDetections c;
     extraPickComments :=
       if hasOption commandline "extra-comments" then true
       else extraPickComments c;
     playback := playback c;
     amplitudeList := amplitudeList c;
     amplitudeUpdateList := amplitudeUpdateList c |}.

(** An application without any option, and one that sets three. *)
Definition noOptions : Application :=
  {| configGetString := fun _ => None;
     configGetBool := fun _ => None;
     configGetDouble := fun _ => None;
     configGetStrings := fun _ => None |}.

Definition someOptions : Application :=
  {| configGetString :=
       fun key => if String.eqb key "phaseHint" then Some "S"%string else None;
     configGetBool :=
       fun key => if String.eqb key "sendDetections" then Some false else None;
     configGetDouble :=
       fun key => if String.eqb key "ringBufferSize" then Some 600%Q else None;
     configGetStrings :=
       fun key =>
         if String.eqb key "amplitudes" then Some ["mb"; "Mwp"; "mb"]%string
         else None |}.

Definition onlySendDetections : CommandLine :=
  {| hasOption := fun opt => String.eqb opt "send-detections" |}.

End Picker.

(** * Properties *)

(** ** The rounding helper *)

Lemma round_nonneg_floor (x : Q) :
  (0 <= x + (1 # 2))%Q -> Private.round x = Qfloor (x + (1 # 2)).
Proof.
  unfold Private.round. cbv zeta.
  destruct (x + (1 # 2))%Q as [n d]. unfold Qle. simpl.
  intros Hn. apply Z.quot_div_nonneg; lia.
Qed.

Lemma round_neg_ceiling (x : Q) :
  (x + (1 # 2) <= 0)%Q -> Private.round x = Qceiling (x + (1 # 2)).
Proof.
  unfold Private.round, Qceiling. cbv zeta.
  destruct (x + (1 # 2))%Q as [n d]. unfold Qle. simpl.
  intros Hn.
  rewrite <- (Z.opp_involutive n) at 1.
  rewrite Z.quot_opp_l by lia.
  f_equal. apply Z.quot_div_nonneg; lia.
Qed.

#[export] Instance round_comp : Proper (Qeq ==> eq) Private.round.
Proof.
  intros x y Hxy.
  destruct (Qlt_le_dec (x + (1 # 2)) 0) as [Hneg | Hpos].
  - rewrite (round_neg_ceiling x) by lra.
    rewrite (round_neg_ceiling y) by lra.
    now rewrite Hxy.
  - rewrite (round_nonneg_floor x) by lra.
    rewrite (round_nonneg_floor y) by lra.
    now rewrite Hxy.
Qed.

Lemma round_mono_nonneg (x y : Q) :
  (0 <= x)%Q -> (x <= y)%Q -> Private.round x <= Private.round y.
Proof.
  intros Hx Hxy.
  rewrite (round_nonneg_floor x) by lra.
  rewrite (round_nonneg_floor y) by lra.
  apply Qfloor_resp_le. lra.
Qed.

Lemma round_nonneg (x : Q) : (0 <= x)%Q -> 0 <= Private.round x.
Proof.
  intros Hx. rewrite round_nonneg_floor by lra.
  change 0 with (Qfloor 0). apply Qfloor_resp_le. lra.
Qed.

(** C6, as stated, fails at [x = -1]: [-1 + 0.5 = -0.5] converts to the
    [int] 0, while [floor (-0.5)] is -1. *)
Lemma round_is_not_floor_at_minus_one :
  ~ (forall x : Q, Private.round x = Qfloor (x + (1 # 2))).
Proof.
  intros Hall. specialize (Hall (- (1))%Q). vm_compute in Hall. discriminate.
Qed.

(** C6 (amended): the helper converts the sum [x + 0.5] to [int], which
    drops the fraction toward zero.  On every input [x >= -0.5] with
    [x + 0.5 < 2^31], so that the result fits an [int], and not within
    [margin] below 0.5, where the [double] sum can round up to 1, it is
    half-up rounding: [round x = floor (x + 0.5)], a value that fits. *)
Theorem round_half_up (x : Q) :
  (- (1 # 2) <= x)%Q ->
  (x + (1 # 2) < 2147483648)%Q ->
  (x <= (1 # 2) - margin \/ (1 # 2) <= x)%Q ->
  Private.round x = Qfloor (x + (1 # 2)) /\
  fitsInt (Private.round x) = true.
Proof.
  intros Hx Htop _.
  assert (Hfloor : Private.round x = Qfloor (x + (1 # 2))).
  { apply round_nonneg_floor. lra. }
  split; [ exact Hfloor | ]. rewrite Hfloor.
  pose proof (Qfloor_le (x + (1 # 2))) as Hle.
  assert (Hlow : 0 <= Qfloor (x + (1 # 2))).
  { change 0 with (Qfloor 0). apply Qfloor_resp_le. lra. }
  assert (Hhigh : Qfloor (x + (1 # 2)) < 2147483648).
  { rewrite Zlt_Qlt. change (inject_Z 2147483648) with 2147483648%Q.
    set (f := inject_Z (Qfloor (x + (1 # 2)))) in *. clearbody f. lra. }
  unfold fitsInt. apply andb_true_intro. split; apply Z.leb_le; lia.
Qed.

Lemma round_half_up_witness :
  Private.round (5 # 2) = Qfloor ((5 # 2) + (1 # 2)) /\
  fitsInt (Private.round (5 # 2)) = true.
Proof.
  apply (round_half_up (5 # 2)).
  - unfold Qle. simpl. lia.
  - unfold Qlt. simpl. lia.
  - right. unfold Qle. simpl. lia.
Defined.

(** ** Scenario S2 *)

(** C1: on the buffer [(0, 1, 100); (1.02, 2, 100)] the window is [0, 2),
    200 samples are estimated, the boundary difference 0.02 s exceeds the
    tolerance 0.005 s, 198 samples are effective, and the evaluator returns
    availability 99, one gap, no overlap. *)
Theorem S2_one_gap :
  window S2 = Core.mkTimeWindow 0 2000000 /\
  (exists front, QcBuffer.front S2 = Some front /\
     estimated S2 front = 200 /\
     effectiveSamples (scan S2 front) = 198 /\
     gapCount (scan S2 front) = 1 /\
     overlapCount (scan S2 front) = 0) /\
  fgt (Fin (Core.toDouble (1020000 - 1000000))) (fdiv (1 # 2) 100) = true /\
  Result_eq (availability S2) (Fin 99, Fin 1, Fin 0).
Proof.
  split; [ reflexivity | ].
  split; [ eexists; repeat split | ].
  split; [ reflexivity | ].
  vm_compute. repeat split; reflexivity.
Qed.

(** ** The loop, one entry at a time *)

Section LoopFacts.

Variable tw : Core.TimeWindow.
Variable est : Z.

Lemma body_timeout qcp s :
  isTimeout qcp = true -> body tw est qcp s = (s, Continue).
Proof. intros Ht. unfold body. now rewrite Ht. Qed.

(** A real record leaves the counters as [detect] set them and moves
    [lastTime] to its end. *)
Lemma body_real_counters qcp s :
  isTimeout qcp = false ->
  let s' := fst (body tw est qcp s) in
  gapCount s' = gapCount (detect qcp s) /\
  overlapCount s' = overlapCount (detect qcp s) /\
  lastTime s' = recordEndTime qcp.
Proof.
  intros Ht. unfold body. rewrite Ht. cbv zeta.
  repeat match goal with
         | |- context [if ?c then _ else _] => destruct c
         end; simpl; auto.
Qed.

(** With the sentinel in [lastTime], nothing is detected. *)
Lemma detect_unset qcp s : lastTime s = Core.Time0 -> detect qcp s = s.
Proof. intros Hl. unfold detect. rewrite Hl. reflexivity. Qed.

(** A record window that contains the analysis window, and is not inside
    it, ends the loop with all estimated samples. *)
Lemma body_break qcp s :
  isTimeout qcp = false ->
  Core.contains tw (recordWindow qcp) = false ->
  Core.contains (recordWindow qcp) tw = true ->
  exists s', body tw est qcp s = (s', Break) /\ effectiveSamples s' = est.
Proof.
  intros Ht Hin Hout. unfold body. rewrite Ht. cbv zeta.
  fold (recordWindow qcp). rewrite Hin, Hout.
  eexists. split; [ reflexivity | reflexivity ].
Qed.

Lemma loop_timeouts skipped rest s :
  forallb isTimeout skipped = true ->
  loop tw est (skipped ++ rest) s = loop tw est rest s.
Proof.
  induction skipped as [| qcp skipped IH]; simpl; [ reflexivity | ].
  intros Hall. apply andb_prop in Hall as [Hq Hs].
  rewrite (body_timeout _ _ Hq). now apply IH.
Qed.

(** Whatever follows an entry that ends the loop is never looked at. *)
Lemma loop_stops_at pre qcp post s :
  isTimeout qcp = false ->
  Core.contains tw (recordWindow qcp) = false ->
  Core.contains (recordWindow qcp) tw = true ->
  loop tw est (pre ++ qcp :: post) s = loop tw est (pre ++ [qcp]) s /\
  effectiveSamples (loop tw est (pre ++ [qcp]) s) = est.
Proof.
  intros Ht Hin Hout. revert s.
  induction pre as [| a pre IH]; intros s; simpl.
  - destruct (body_break qcp s Ht Hin Hout) as [s' [Hb He]].
    rewrite Hb. auto.
  - destruct (body tw est a s) as [s1 [ | ]] eqn:Hb.
    + apply IH.
    + split; [ reflexivity | ].
      (* the earlier entry broke the loop: it set the same count *)
      unfold body in Hb.
      repeat match type of Hb with
             | context [if ?c then _ else _] => destruct c
             end; inversion Hb; reflexivity.
Qed.

(** The boundary after a real record that ends at the zero time. *)
Lemma loop_sentinel_boundary pre e1 skipped e2 s :
  isTimeout e1 = false ->
  recordEndTime e1 = Core.Time0 ->
  forallb isTimeout skipped = true ->
  isTimeout e2 = false ->
  let before := loop tw est (pre ++ [e1]) s in
  let after := loop tw est (pre ++ e1 :: skipped ++ [e2]) s in
  gapCount after = gapCount before /\
  overlapCount after = overlapCount before.
Proof.
  intros H1 Hend Hskip H2. revert s.
  induction pre as [| a pre IH]; intros s; simpl.
  - destruct (body_real_counters e1 s H1) as [_ [_ Hlast]].
    destruct (body tw est e1 s) as [s1 [ | ]]; simpl in *; [ | auto ].
    rewrite loop_timeouts by assumption. simpl.
    destruct (body_real_counters e2 s1 H2) as [Hg [Ho _]].
    rewrite detect_unset in Hg, Ho by congruence.
    destruct (body tw est e2 s1) as [s2 [ | ]]; simpl in *; auto.
  - destruct (body tw est a s) as [s1 [ | ]]; [ apply IH | auto ].
Qed.

End LoopFacts.

(** ** The zero time as the "not yet set" value *)

(** C10: [lastTime] starts as [Core::Time()] and that value also means
    "no previous end".  When a real entry [e1] ends at the zero time, the
    counters after the next real entry [e2] (timeout entries in between are
    skipped) are those after [e1]: nothing is counted at that boundary,
    whatever [e2]'s start time is. *)
Theorem zero_end_time_hides_boundary
    (pre : QcBuffer.t) (e1 : QcParameter) (skipped : QcBuffer.t)
    (e2 : QcParameter) (post : QcBuffer.t) (front : QcParameter) :
  let buf := pre ++ e1 :: skipped ++ e2 :: post in
  QcBuffer.front buf = Some front ->
  isTimeout e1 = false ->
  recordEndTime e1 = Core.Time0 ->
  forallb isTimeout skipped = true ->
  isTimeout e2 = false ->
  let upTo entries := loop (window buf) (estimated buf front) entries initState in
  gapCount (upTo (pre ++ e1 :: skipped ++ [e2])) = gapCount (upTo (pre ++ [e1])) /\
  overlapCount (upTo (pre ++ e1 :: skipped ++ [e2]))
    = overlapCount (upTo (pre ++ [e1])).
Proof.
  intros buf _ H1 Hend Hskip H2 upTo. unfold upTo.
  now apply loop_sentinel_boundary.
Qed.

Lemma zero_end_time_hides_boundary_witness :
  gapCount (scan endsAtEpoch (real (-1000000) 0 100)) = 0 /\
  overlapCount (scan endsAtEpoch (real (-1000000) 0 100)) = 0.
Proof.
  exact (zero_end_time_hides_boundary
           [] (real (-1000000) 0 100) [] (real 5000000 6000000 100) []
           (real (-1000000) 0 100)
           eq_refl eq_refl eq_refl eq_refl eq_refl).
Defined.

(** The same five-second hole one second later is counted. *)
Lemma nonzero_end_time_counts_boundary :
  Result_eq (availability endsAtEpoch) (Fin (200 # 7), Fin 0, Fin 0) /\
  Result_eq (availability endsAfterEpoch) (Fin (200 # 7), Fin 1, Fin 0).
Proof. vm_compute. repeat split; reflexivity. Qed.

(** ** Containment of the analysis window *)

Lemma ratio_full (n : Z) : n <> 0 -> feq (ratio n n) (Fin 100).
Proof.
  intros Hn. unfold ratio, fdiv.
  assert (Hq : ~ (inject_Z n == 0)%Q).
  { intros Hq. apply Hn. unfold Qeq in Hq. simpl in Hq. lia. }
  destruct (Qeq_bool (inject_Z n) 0) eqn:He.
  - apply Qeq_bool_iff in He. contradiction.
  - assert (Hv : (100 * inject_Z n / inject_Z n == 100)%Q) by (field; exact Hq).
    unfold fgt. destruct (Qle_bool (100 * inject_Z n / inject_Z n) 100) eqn:Hle.
    + simpl. exact Hv.
    + exfalso. rewrite Hv in Hle. discriminate.
Qed.

(** C5, as stated, fails on its own scenario: in [(-5, 15, 100); (20, 25,
    100)] no record contains the window [-5, 25), both records lie inside
    it, and the gap between them is counted. *)
Lemma S4_is_not_short_circuited :
  ~ Result_eq (availability S4) (Fin 100, Fin 0, Fin 0).
Proof. vm_compute. intros [Ha _]. discriminate. Qed.

(** C5 (amended): in a buffer whose front entry is a real record, when a
    real entry's record window contains the analysis window without lying
    inside it, the loop ends at that entry (or before) with
    [effective = estimated]; the counters are those reached up to that
    entry, nothing later is counted, and the availability is 100 whenever
    the estimated count is not zero.  The scenario S4 is not such a
    buffer: its result is (250/3, 1, 0). *)
Theorem containment_short_circuit :
  (forall (pre : QcBuffer.t) (e : QcParameter) (post : QcBuffer.t)
          (front : QcParameter),
      let buf := pre ++ e :: post in
      QcBuffer.front buf = Some front ->
      isTimeout front = false ->
      isTimeout e = false ->
      Core.contains (recordWindow e) (window buf) = true ->
      Core.contains (window buf) (recordWindow e) = false ->
      let s := loop (window buf) (estimated buf front) (pre ++ [e]) initState in
      scan buf front = s /\
      effectiveSamples s = estimated buf front /\
      (estimated buf front <> 0 ->
       Result_eq (availability buf)
         (Fin 100, ofInt (gapCount s), ofInt (overlapCount s)))) /\
  Result_eq (availability S4) (Fin (250 # 3), Fin 1, Fin 0).
Proof.
  split.
  - intros pre e post front buf Hfront Hreal He Hout Hin s.
    destruct (loop_stops_at (window buf) (estimated buf front)
                pre e post initState He Hin Hout) as [Hsame Heff].
    fold s in Hsame, Heff.
    assert (Hscan : scan buf front = s) by exact Hsame.
    repeat split; try assumption.
    intros Hest. unfold availability. rewrite Hfront, Hreal, Hscan, Heff.
    simpl. repeat split; try reflexivity.
    now apply ratio_full.
  - vm_compute. repeat split; reflexivity.
Qed.

Lemma containment_short_circuit_witness :
  Result_eq (availability longFront) (Fin 100, Fin 0, Fin 0).
Proof.
  refine (proj2 (proj2 (proj1 containment_short_circuit
            [] (real 0 10000000 100) [real 2000000 3000000 100]
            (real 0 10000000 100)
            eq_refl eq_refl eq_refl eq_refl eq_refl)) _).
  vm_compute. discriminate.
Defined.

(** ** The quotient and its clamp *)

(** Integers seen as rationals become plain rational unknowns, which is
    what the arithmetic deciders want. *)
Ltac hide_inject :=
  repeat match goal with
         | H : context [inject_Z ?n] |- _ =>
             let q := fresh "q" in set (q := inject_Z n) in *; clearbody q
         | |- context [inject_Z ?n] =>
             let q := fresh "q" in set (q := inject_Z n) in *; clearbody q
         end.

Lemma inject_Z_eq0 (n : Z) : (inject_Z n == 0)%Q <-> n = 0.
Proof. unfold Qeq. simpl. lia. Qed.

Lemma fdiv_by_zero (x : Q) :
  fdiv x (inject_Z 0) =
  match (x ?= 0)%Q with Gt => PInf | Lt => NInf | Eq => NaN end.
Proof. reflexivity. Qed.

(** What the unguarded division gives when nothing is estimated. *)
Lemma ratio_zero_estimate (n : Z) :
  (0 < n -> ratio n 0 = Fin 100) /\
  (n = 0 -> ratio n 0 = NaN) /\
  (n < 0 -> ratio n 0 = NInf).
Proof.
  unfold ratio. rewrite fdiv_by_zero.
  repeat split; intros Hn.
  - assert (Hgt : (100 * inject_Z n ?= 0)%Q = Gt).
    { apply Qgt_alt. rewrite (Zlt_Qlt 0 n) in Hn.
      change (inject_Z 0) with 0%Q in Hn. hide_inject. lra. }
    now rewrite Hgt.
  - subst n. reflexivity.
  - assert (Hlt : (100 * inject_Z n ?= 0)%Q = Lt).
    { change (100 * inject_Z n < 0)%Q. rewrite (Zlt_Qlt n 0) in Hn.
      change (inject_Z 0) with 0%Q in Hn. hide_inject. lra. }
    now rewrite Hlt.
Qed.

Lemma ratio_in_range (eff est : Z) :
  0 <= eff -> 0 <= est -> ~ (est = 0 /\ eff = 0) ->
  inRange (ratio eff est) = true.
Proof.
  intros Heff Hest Hboth.
  destruct (Z.eq_dec est 0) as [-> | Hne].
  - destruct (ratio_zero_estimate eff) as [Hpos _].
    rewrite Hpos by lia. reflexivity.
  - unfold ratio, fdiv.
    destruct (Qeq_bool (inject_Z est) 0) eqn:Hz.
    { apply Qeq_bool_iff in Hz. apply (proj1 (inject_Z_eq0 est)) in Hz.
      contradiction. }
    simpl. destruct (Qle_bool (100 * inject_Z eff / inject_Z est) 100) eqn:Hle;
      simpl; [ | reflexivity ].
    unfold inRange. simpl. rewrite Hle, andb_true_r.
    apply Qle_bool_iff. apply Qle_shift_div_l.
    + change 0%Q with (inject_Z 0). rewrite <- Zlt_Qlt. lia.
    + rewrite (Zle_Qle 0 eff) in Heff.
      change (inject_Z 0) with 0%Q in Heff. hide_inject. lra.
Qed.

Lemma ratio_full_in_range (n : Z) : n <> 0 -> inRange (ratio n n) = true.
Proof.
  intros Hn. pose proof (ratio_full n Hn) as Hfull.
  destruct (ratio n n) as [x | | | ]; simpl in Hfull; try contradiction.
  unfold inRange. simpl. apply andb_true_intro.
  split; apply Qle_bool_iff; lra.
Qed.

(** ** Sample counts of valid entries *)

Lemma toDouble_le (a b : Z) : a <= b -> (Core.toDouble a <= Core.toDouble b)%Q.
Proof. intros Hab. unfold Core.toDouble, Qle. simpl. lia. Qed.

Lemma toDouble_pos (a : Z) : (0 < Core.toDouble a)%Q <-> 0 < a.
Proof. unfold Core.toDouble, Qlt. simpl. lia. Qed.

Lemma validEntry_real qcp :
  validEntry qcp = true -> isTimeout qcp = false ->
  (0 <= recordSamplingFrequency qcp)%Q /\
  ((0 < recordSamplingFrequency qcp)%Q ->
   recordStartTime qcp < recordEndTime qcp).
Proof.
  unfold validEntry. intros Hv Ht. rewrite Ht in Hv. simpl in Hv.
  apply andb_prop in Hv as [Hfs Hlen].
  apply Qle_bool_iff in Hfs. split; [ exact Hfs | ].
  intros Hpos. apply orb_prop in Hlen as [Hzero | Hlen].
  - apply Qle_bool_iff in Hzero. lra.
  - now apply Z.ltb_lt.
Qed.

(** A span that is not negative whenever the rate is positive holds a
    non-negative number of samples. *)
Lemma samples_nonneg (fs : Q) (d : Z) :
  (0 <= fs)%Q -> ((0 < fs)%Q -> 0 <= d) ->
  (0 <= Core.toDouble d * fs)%Q.
Proof.
  intros Hfs Hd. destruct (Qlt_le_dec 0 fs) as [Hpos | Hzero].
  - pose proof (toDouble_le 0 d (Hd Hpos)) as H0.
    change (Core.toDouble 0) with (0 # 1000000) in H0. nra.
  - assert (Hz : (fs == 0)%Q) by lra. rewrite Hz. lra.
Qed.

(** The part of a record cut off at a window edge has no more samples than
    the record. *)
Lemma cut_le_count (fs : Q) (cut len : Z) :
  (0 <= fs)%Q -> 0 <= cut -> cut <= len ->
  Private.round (Core.toDouble cut * fs)
  <= Private.round (Core.toDouble len * fs).
Proof.
  intros Hfs Hcut Hlen.
  pose proof (toDouble_le 0 cut Hcut) as H0.
  pose proof (toDouble_le cut len Hlen) as H1.
  change (Core.toDouble 0) with (0 # 1000000) in H0.
  apply round_mono_nonneg; nra.
Qed.

Lemma detect_effective qcp s :
  effectiveSamples (detect qcp s) = effectiveSamples s.
Proof. unfold detect. destruct (negb _); reflexivity. Qed.

Section Range.

Variable tw : Core.TimeWindow.
Variable est : Z.
Hypothesis est_nonneg : 0 <= est.

Lemma body_effective_nonneg qcp s :
  validEntry qcp = true ->
  0 <= effectiveSamples s ->
  0 <= effectiveSamples (fst (body tw est qcp s)).
Proof.
  intros Hv Hs. unfold body.
  destruct (isTimeout qcp) eqn:Ht; [ exact Hs | ].
  destruct (validEntry_real qcp Hv Ht) as [Hfs Hlen].
  cbv zeta.
  assert (Hcount : 0 <= Private.round
            (Core.toDouble (Core.length (recordWindow qcp))
             * recordSamplingFrequency qcp)).
  { apply round_nonneg. apply samples_nonneg; [ exact Hfs | ].
    intros Hpos. specialize (Hlen Hpos).
    unfold Core.length, recordWindow. simpl. lia. }
  fold (recordWindow qcp).
  destruct (Core.contains tw (recordWindow qcp)); simpl.
  { rewrite detect_effective. lia. }
  destruct (Core.contains (recordWindow qcp) tw); simpl.
  { exact est_nonneg. }
  destruct (Core.overlaps tw (recordWindow qcp)) eqn:Hov; simpl.
  2:{ now rewrite detect_effective. }
  unfold Core.overlaps, recordWindow in Hov. simpl in Hov.
  apply andb_prop in Hov as [Hov1 Hov2].
  apply Z.ltb_lt in Hov1, Hov2.
  destruct (Qle_bool (Core.toDouble (Core.startTime tw - recordStartTime qcp)) 0)
    eqn:Hhead; simpl.
  - destruct (Qle_bool (Core.toDouble (recordEndTime qcp - Core.endTime tw)) 0)
      eqn:Htail; simpl.
    + now rewrite detect_effective.
    + rewrite detect_effective.
      assert (Hdt : 0 < recordEndTime qcp - Core.endTime tw).
      { apply toDouble_pos.
        destruct (Qlt_le_dec 0 (Core.toDouble (recordEndTime qcp - Core.endTime tw)))
          as [Hp | Hn]; [ exact Hp | ].
        apply Qle_bool_iff in Hn. congruence. }
      pose proof (cut_le_count (recordSamplingFrequency qcp)
                    (recordEndTime qcp - Core.endTime tw)
                    (Core.length (recordWindow qcp)) Hfs) as Hcut.
      unfold Core.length, recordWindow in Hcut. simpl in Hcut.
      unfold Core.length, recordWindow in *. simpl in *.
      specialize (Hcut ltac:(lia) ltac:(lia)). lia.
  - rewrite detect_effective.
    assert (Hdt : 0 < Core.startTime tw - recordStartTime qcp).
    { apply toDouble_pos.
      destruct (Qlt_le_dec 0 (Core.toDouble (Core.startTime tw - recordStartTime qcp)))
        as [Hp | Hn]; [ exact Hp | ].
      apply Qle_bool_iff in Hn. congruence. }
    pose proof (cut_le_count (recordSamplingFrequency qcp)
                  (Core.startTime tw - recordStartTime qcp)
                  (Core.length (recordWindow qcp)) Hfs) as Hcut.
    unfold Core.length, recordWindow in *. simpl in *.
    specialize (Hcut ltac:(lia) ltac:(lia)). lia.
Qed.

Lemma loop_effective_nonneg buf s :
  forallb validEntry buf = true ->
  0 <= effectiveSamples s ->
  0 <= effectiveSamples (loop tw est buf s).
Proof.
  revert s. induction buf as [| qcp buf IH]; intros s Hall Hs; simpl.
  - exact Hs.
  - simpl in Hall. apply andb_prop in Hall as [Hq Hrest].
    pose proof (body_effective_nonneg qcp s Hq Hs) as Hstep.
    destruct (body tw est qcp s) as [s' [ | ]]; simpl in Hstep.
    + now apply IH.
    + exact Hstep.
Qed.

End Range.

(** ** An estimated count of zero *)

(** C2, as stated, fails on [slowThenFast]: the window [0 s, 0.3 s) at the
    front rate of 1 Hz gives [round 0.3 = 0] estimated samples, yet the
    loop runs, counts the gap, and the clamped quotient is 100. *)
Lemma zero_estimate_does_not_return_zeros :
  ~ (forall (buf : QcBuffer.t) (front : QcParameter),
        QcBuffer.front buf = Some front ->
        isTimeout front = false ->
        estimated buf front = 0 ->
        Result_eq (availability buf) zeros).
Proof.
  intros Hall.
  specialize (Hall slowThenFast (real 0 100000 1) eq_refl eq_refl eq_refl).
  vm_compute in Hall. destruct Hall as [Ha _]. discriminate.
Qed.

(** C2 (amended): with a real front entry and an estimated count of zero
    the evaluator does not return early: it runs the loop and divides.  The
    gap and overlap counts it returns are those of the loop, and when some
    sample is effective the availability is 100, the infinite quotient
    being clamped. *)
Theorem zero_estimate_still_divides (buf : QcBuffer.t) (front : QcParameter) :
  QcBuffer.front buf = Some front ->
  isTimeout front = false ->
  estimated buf front = 0 ->
  let s := scan buf front in
  at_ (availability buf) 1 = ofInt (gapCount s) /\
  at_ (availability buf) 2 = ofInt (overlapCount s) /\
  at_ (availability buf) 0 = ratio (effectiveSamples s) 0 /\
  (0 < effectiveSamples s -> at_ (availability buf) 0 = Fin 100).
Proof.
  intros Hfront Hreal Hest s. unfold availability.
  rewrite Hfront, Hreal. fold s. rewrite Hest. simpl.
  destruct (ratio_zero_estimate (effectiveSamples s)) as [Hpos _].
  auto.
Qed.

Lemma zero_estimate_still_divides_witness :
  at_ (availability slowThenFast) 1 = Fin 1 /\
  at_ (availability slowThenFast) 0 = Fin 100.
Proof.
  pose proof (zero_estimate_still_divides slowThenFast (real 0 100000 1)
                eq_refl eq_refl eq_refl) as [Hgaps [_ [_ Hpos]]].
  split.
  - exact Hgaps.
  - apply Hpos. vm_compute. reflexivity.
Defined.

(** ** The range of the availability *)

(** C3, as stated, fails on [shortRecord]: a valid record of a tenth of a
    sample gives 0 estimated and 0 effective samples, and [0 / 0] is
    neither at least 0 nor at most 100. *)
Lemma short_record_is_out_of_range :
  ~ (forall (buf : QcBuffer.t) (front : QcParameter),
        forallb validEntry buf = true ->
        QcBuffer.front buf = Some front ->
        isTimeout front = false ->
        inRange (at_ (availability buf) 0) = true).
Proof.
  intros Hall.
  specialize (Hall shortRecord (real 0 1000 100) eq_refl eq_refl eq_refl).
  vm_compute in Hall. discriminate.
Qed.

(** A negative sampling frequency other than -1 is not valid: it takes
    samples away, here down to an availability of -4900, and makes the two
    tolerances cross, so that the contiguous boundary counts as a gap and
    as an overlap. *)
Lemma negative_rate_goes_below_zero :
  Result_eq (availability [real 0 1000000 1; real 1000000 2000000 (-100)])
    (Fin (-4900), Fin 1, Fin 1).
Proof. vm_compute. repeat split; reflexivity. Qed.

Lemma window_cons (front : QcParameter) (rest : QcBuffer.t) :
  Core.startTime (window (front :: rest)) = recordStartTime front.
Proof. reflexivity. Qed.

Lemma scan_front_break (front : QcParameter) (rest : QcBuffer.t) s' :
  body (window (front :: rest)) (estimated (front :: rest) front)
    front initState = (s', Break) ->
  scan (front :: rest) front = s'.
Proof. intros Hb. unfold scan. simpl loop. now rewrite Hb. Qed.

(** C3 (amended): for every valid non-empty buffer whose front entry is a
    real record (no entry but a timeout marker has a negative sampling
    frequency, and an entry of positive frequency ends after it starts),
    on which the run stays inside the 32-bit [int], unless the estimated
    and the effective count are both zero, the availability satisfies
    [0 <= availability <= 100]. *)
Theorem availability_in_range (buf : QcBuffer.t) (front : QcParameter) :
  forallb validEntry buf = true ->
  staysInInt buf = true ->
  QcBuffer.front buf = Some front ->
  isTimeout front = false ->
  ~ (estimated buf front = 0 /\ effectiveSamples (scan buf front) = 0) ->
  inRange (at_ (availability buf) 0) = true.
Proof.
  intros Hvalid _ Hfront Hreal Hboth.
  unfold availability. rewrite Hfront, Hreal. simpl at_.
  destruct buf as [| f rest]; [ discriminate | ].
  injection Hfront as ->.
  assert (Hf : validEntry front = true).
  { simpl in Hvalid. now apply andb_prop in Hvalid as [Hf _]. }
  destruct (validEntry_real front Hf Hreal) as [Hfs Hlen].
  remember (front :: rest) as buf eqn:Hbuf.
  assert (Hstart : Core.startTime (window buf) = recordStartTime front)
    by (rewrite Hbuf; reflexivity).
  destruct (Z_le_gt_dec 0 (estimated buf front)) as [Hest | Hneg].
  - (* nothing negative is ever added to the effective count *)
    apply ratio_in_range; [ | exact Hest | exact Hboth ].
    unfold scan. apply loop_effective_nonneg; [ exact Hest | exact Hvalid | ].
    simpl. lia.
  - (* a negative estimate: the front rate is positive and the back entry
       ends before the front starts, so the front record contains the
       window and ends the loop *)
    assert (Hpos : (0 < recordSamplingFrequency front)%Q).
    { destruct (Qlt_le_dec 0 (recordSamplingFrequency front)) as [Hp | Hz];
        [ exact Hp | exfalso ].
      assert (Hzero : (recordSamplingFrequency front == 0)%Q) by lra.
      unfold estimated in Hneg. rewrite Hzero in Hneg.
      pose proof (round_nonneg (Core.toDouble (Core.length (window buf)) * 0)
                    ltac:(lra)). lia. }
    assert (Hrev : Core.endTime (window buf) < Core.startTime (window buf)).
    { destruct (Z_lt_le_dec (Core.endTime (window buf))
                  (Core.startTime (window buf))) as [Hlt | Hle];
        [ exact Hlt | exfalso ].
      pose proof (round_nonneg _
                    (samples_nonneg (recordSamplingFrequency front)
                       (Core.length (window buf)) Hfs
                       ltac:(intros _; unfold Core.length; lia))) as Hge.
      fold (estimated buf front) in Hge. lia. }
    specialize (Hlen Hpos).
    assert (Hin : Core.contains (window buf) (recordWindow front) = false).
    { unfold Core.contains. apply andb_false_iff. right. apply Z.leb_gt.
      change (Core.endTime (recordWindow front)) with (recordEndTime front).
      lia. }
    assert (Hout : Core.contains (recordWindow front) (window buf) = true).
    { unfold Core.contains. apply andb_true_intro.
      change (Core.endTime (recordWindow front)) with (recordEndTime front).
      change (Core.startTime (recordWindow front))
        with (recordStartTime front).
      split; apply Z.leb_le; lia. }
    destruct (body_break (window buf) (estimated buf front) front initState
                Hreal Hin Hout) as [s' [Hb He]].
    assert (Hscan : scan buf front = s').
    { rewrite Hbuf in *. now apply scan_front_break. }
    rewrite Hscan in *. rewrite He in *.
    apply ratio_full_in_range. lia.
Qed.

Lemma availability_in_range_witness :
  inRange (at_ (availability S2) 0) = true.
Proof.
  apply (availability_in_range S2 (real 0 1000000 100));
    try reflexivity.
  vm_compute. intros [Hest _]. discriminate.
Defined.

(** ** Report emission *)

Section Emission.

Context `{Host}.

(** What [generateReport] does to the plugin on a non-empty buffer. *)
Lemma generateReport_nonempty (buf : QcBuffer.t) (p : Plugin) :
  QcBuffer.empty buf = false ->
  exec (generateReport buf) p =
  {| _qcBuffer := _qcBuffer p;
     _lastRecordEndTime := _lastRecordEndTime p;
     _streamID := _streamID p;
     objects :=
       objects p ++
       [quality (_streamID p) (utc (clockReads p)) buf (availability buf) 0;
        quality (_streamID p) (utc (S (clockReads p))) buf (availability buf) 1;
        quality (_streamID p) (utc (S (S (clockReads p)))) buf
          (availability buf) 2];
     clockReads := S (S (S (clockReads p))) |}.
Proof.
  intros Hne. unfold generateReport. rewrite Hne.
  unfold exec, bind, report, bind, getStreamID, UTC, pushObject. simpl.
  f_equal. rewrite <- !app_assoc. reflexivity.
Qed.

Lemma generateReport_empty (p : Plugin) : exec (generateReport []) p = p.
Proof. reflexivity. Qed.

Lemma generateReport_keeps_buffer (buf : QcBuffer.t) (p : Plugin) :
  _qcBuffer (exec (generateReport buf) p) = _qcBuffer p /\
  _lastRecordEndTime (exec (generateReport buf) p) = _lastRecordEndTime p.
Proof.
  destruct (QcBuffer.empty buf) eqn:He.
  - unfold generateReport. rewrite He. split; reflexivity.
  - rewrite generateReport_nonempty by assumption. split; reflexivity.
Qed.

Lemma report_values (buf : QcBuffer.t) (p : Plugin) :
  QcBuffer.empty buf = false ->
  exists r0 r1 r2,
    objects (exec (generateReport buf) p) = objects p ++ [r0; r1; r2] /\
    DataModel.value r0 = at_ (availability buf) 0 /\
    DataModel.value r1 = at_ (availability buf) 1 /\
    DataModel.value r2 = at_ (availability buf) 2.
Proof.
  intros Hne. rewrite generateReport_nonempty by assumption.
  do 3 eexists. repeat split.
Qed.

End Emission.

(** C8, as stated, fails whenever the clock advances between two
    readings: every block reads [Core::Time::UTC()] for itself, and with a
    clock that moves by a microsecond per reading the three reports of the
    emission on S2 are created at three different times. *)
Lemma created_timestamps_differ :
  ~ (forall (h : Host) (buf : QcBuffer.t) (p : @Plugin h),
        QcBuffer.empty buf = false ->
        exists r0 r1 r2,
          objects (exec (generateReport buf) p) = objects p ++ [r0; r1; r2] /\
          DataModel.created r0 = DataModel.created r1 /\
          DataModel.created r1 = DataModel.created r2).
Proof.
  intros Hall.
  destruct (Hall tickingHost S2 (plugin0 tickingHost S2) eq_refl)
    as [r0 [r1 [r2 [Hobjs [H01 _]]]]].
  rewrite generateReport_nonempty in Hobjs by reflexivity.
  simpl in Hobjs. injection Hobjs as <- <- <-.
  vm_compute in H01. discriminate.
Qed.

(** C8 (amended): every emission on a non-empty buffer pushes exactly
    three reports, in the order availability, gaps count, overlaps count,
    holding the three components of the evaluator's result.  The three
    carry the same start (the buffer's start time), end (the buffer's end
    time), window length (the buffer's length), type "report", zero
    uncertainties, waveform ID and creator ID.  Each is created at its own
    reading of the clock, three successive readings, which are one
    timestamp when the clock does not move between them. *)
Theorem report_triple `{Host} (buf : QcBuffer.t) (p : Plugin) :
  QcBuffer.empty buf = false ->
  exists r0 r1 r2,
    objects (exec (generateReport buf) p) = objects p ++ [r0; r1; r2] /\
    (DataModel.parameter r0 = "availability"%string /\
     DataModel.parameter r1 = "gaps count"%string /\
     DataModel.parameter r2 = "overlaps count"%string) /\
    (DataModel.value r0 = at_ (availability buf) 0 /\
     DataModel.value r1 = at_ (availability buf) 1 /\
     DataModel.value r2 = at_ (availability buf) 2) /\
    Forall (fun r =>
              DataModel.start r = QcBuffer.startTime buf /\
              DataModel.end_ r = QcBuffer.endTime buf /\
              DataModel.windowLength r = Core.toDouble (QcBuffer.length buf) /\
              DataModel.type r = "report"%string /\
              DataModel.lowerUncertainty r = 0%Q /\
              DataModel.upperUncertainty r = 0%Q /\
              DataModel.waveformID r = getWaveformID (_streamID p) /\
              DataModel.creatorID r = appCreatorID)
           [r0; r1; r2] /\
    (DataModel.created r0 = utc (clockReads p) /\
     DataModel.created r1 = utc (1 + clockReads p) /\
     DataModel.created r2 = utc (2 + clockReads p)) /\
    (utc (1 + clockReads p) = utc (clockReads p) ->
     utc (2 + clockReads p) = utc (clockReads p) ->
     DataModel.created r0 = DataModel.created r1 /\
     DataModel.created r1 = DataModel.created r2).
Proof.
  intros Hne. rewrite generateReport_nonempty by assumption.
  do 3 eexists. split; [ reflexivity | ].
  split; [ repeat split | ].
  split; [ repeat split | ].
  split; [ repeat constructor | ].
  split; [ repeat split | ].
  simpl. intros H1 H2. rewrite H1, H2. split; reflexivity.
Qed.

Lemma report_triple_witness :
  List.length (objects (exec (generateReport S2) (plugin0 tickingHost S2))) = 3%nat.
Proof.
  destruct (@report_triple tickingHost S2 (plugin0 tickingHost S2) eq_refl)
    as [r0 [r1 [r2 [Hobjs _]]]].
  rewrite Hobjs. reflexivity.
Defined.

(** ** Empty buffers and leading timeouts *)

(** C4, as stated, fails on [leadingTimeout]: the evaluator returns zeros,
    and [generateReport], which only checks for an empty buffer, emits them
    as three reports. *)
Lemma leading_timeout_is_reported :
  ~ (forall (h : Host) (buf : QcBuffer.t) (p : @Plugin h)
            (front : QcParameter),
        QcBuffer.front buf = Some front ->
        isTimeout front = true ->
        Result_eq (availability buf) zeros /\
        objects (exec (generateReport buf) p) = objects p).
Proof.
  intros Hall.
  destruct (Hall tickingHost leadingTimeout
              (plugin0 tickingHost leadingTimeout)
              (timeoutEntry 0 30000000) eq_refl eq_refl) as [_ Hnone].
  vm_compute in Hnone. discriminate.
Qed.

(** C4 (amended): on an empty buffer the evaluator returns (0, 0, 0) and
    [generateReport] emits nothing.  When the front entry is a timeout
    marker the evaluator returns (0, 0, 0) too, and [generateReport] emits
    the three reports, each with the value 0. *)
Theorem degenerate_buffers `{Host} (p : Plugin) :
  (availability [] = zeros /\
   objects (exec (generateReport []) p) = objects p) /\
  (forall (buf : QcBuffer.t) (front : QcParameter),
      QcBuffer.front buf = Some front ->
      isTimeout front = true ->
      availability buf = zeros /\
      exists r0 r1 r2,
        objects (exec (generateReport buf) p) = objects p ++ [r0; r1; r2] /\
        DataModel.value r0 = Fin 0 /\
        DataModel.value r1 = Fin 0 /\
        DataModel.value r2 = Fin 0).
Proof.
  split; [ split; reflexivity | ].
  intros buf front Hfront Htimeout.
  assert (Hzeros : availability buf = zeros).
  { unfold availability. now rewrite Hfront, Htimeout. }
  split; [ exact Hzeros | ].
  assert (Hne : QcBuffer.empty buf = false).
  { destruct buf; [ discriminate | reflexivity ]. }
  destruct (report_values buf p Hne) as [r0 [r1 [r2 [Hobjs Hvals]]]].
  exists r0, r1, r2. rewrite Hzeros in Hvals. exact (conj Hobjs Hvals).
Qed.

Lemma degenerate_buffers_witness :
  availability leadingTimeout = zeros /\
  List.length
    (objects (exec (generateReport leadingTimeout)
                (plugin0 tickingHost leadingTimeout))) = 3%nat.
Proof.
  destruct (proj2 (@degenerate_buffers tickingHost
                     (plugin0 tickingHost leadingTimeout))
              leadingTimeout (timeoutEntry 0 30000000) eq_refl eq_refl)
    as [Hzeros [r0 [r1 [r2 [Hobjs _]]]]].
  split; [ exact Hzeros | ]. rewrite Hobjs. reflexivity.
Defined.

(** ** The timeout injector *)

Section Timeouts.

Context `{Host}.

Lemma back_push (buf : QcBuffer.t) (qcp : QcParameter) :
  QcBuffer.back (QcBuffer.push_back buf qcp) = Some qcp.
Proof.
  unfold QcBuffer.back, QcBuffer.push_back.
  now rewrite rev_app_distr.
Qed.

Lemma back_nonempty (buf : QcBuffer.t) :
  buf <> [] -> exists bk, QcBuffer.back buf = Some bk.
Proof.
  intros Hne. unfold QcBuffer.back.
  destruct (rev buf) as [| bk l] eqn:Hrev.
  - apply (f_equal (@rev QcParameter)) in Hrev.
    rewrite rev_involutive in Hrev. contradiction.
  - now exists bk.
Qed.

(** One tick on a non-empty buffer appends one timeout entry that starts
    at the anchor and stores the anchor. *)
Lemma timeoutTask_step (p : Plugin) :
  _qcBuffer p <> [] ->
  let p' := exec timeoutTask p in
  _qcBuffer p' =
    _qcBuffer p ++
    [ {| recordStartTime := anchor p;
         recordEndTime := utc (clockReads p);
         recordSamplingFrequency := -1;
         parameter := Core.toDouble (utc (clockReads p) - anchor p) |} ] /\
  _lastRecordEndTime p' = anchor p.
Proof.
  intros Hne. destruct (back_nonempty _ Hne) as [bk Hbk].
  assert (Hempty : QcBuffer.empty (_qcBuffer p) = false).
  { destruct (_qcBuffer p); [ contradiction | reflexivity ]. }
  unfold anchor. rewrite Hbk. cbv zeta.
  unfold timeoutTask, sendMessages, exec, bind, getBuffer, UTC,
    getLastRecordEndTime, bufferPushBack.
  rewrite Hempty, Hbk.
  destruct (isTimeout bk); cbn -[generateReport];
    match goal with
    | |- context [generateReport ?buf ?q] =>
        destruct (generateReport_keeps_buffer buf q) as [Hbuf Hlast];
        unfold exec in Hbuf, Hlast; rewrite Hbuf, Hlast
    end; split; reflexivity.
Qed.

Lemma anchor_after_tick (p : Plugin) :
  _qcBuffer p <> [] -> anchor (exec timeoutTask p) = anchor p.
Proof.
  intros Hne. destruct (timeoutTask_step p Hne) as [Hbuf Hlast].
  unfold anchor at 1. rewrite Hbuf.
  change (_qcBuffer p ++ [?t]) with (QcBuffer.push_back (_qcBuffer p) t).
  rewrite back_push. simpl. exact Hlast.
Qed.

End Timeouts.

(** C9: successive ticks on a non-empty buffer, with no record appended in
    between, append one timeout entry each, and every one of them starts at
    the same time as the first.  [_lastRecordEndTime] is taken from the
    back entry only when that entry is a real record, so after the first
    tick it holds the anchor and stays there. *)
Theorem timeout_anchor_does_not_drift `{Host} (n : nat) (p : Plugin) :
  _qcBuffer p <> [] ->
  exists injected : QcBuffer.t,
    _qcBuffer (ticks n p) = _qcBuffer p ++ injected /\
    List.length injected = n /\
    Forall (fun t => isTimeout t = true /\ recordStartTime t = anchor p)
           injected /\
    (forall first t,
        hd_error injected = Some first -> In t injected ->
        recordStartTime t = recordStartTime first) /\
    (n <> 0%nat -> _lastRecordEndTime (ticks n p) = anchor p).
Proof.
  revert p. induction n as [| n IH]; intros p Hne.
  - exists []. rewrite app_nil_r. simpl.
    repeat split; try constructor; try discriminate; try tauto.
  - destruct (timeoutTask_step p Hne) as [Hbuf Hlast].
    assert (Hne' : _qcBuffer (exec timeoutTask p) <> []).
    { rewrite Hbuf. intros Hnil. apply app_eq_nil in Hnil as [_ Hnil].
      discriminate. }
    destruct (IH (exec timeoutTask p) Hne')
      as [rest [Hrest [Hlen [Hall [_ Hlater]]]]].
    rewrite anchor_after_tick in Hall, Hlater by assumption.
    rewrite Hbuf in Hrest. rewrite <- app_assoc in Hrest. simpl in Hrest.
    eexists. split; [ exact Hrest | ].
    assert (Hall' :
      Forall (fun t => isTimeout t = true /\ recordStartTime t = anchor p)
        ({| recordStartTime := anchor p;
            recordEndTime := utc (clockReads p);
            recordSamplingFrequency := -1;
            parameter := Core.toDouble (utc (clockReads p) - anchor p) |}
         :: rest)).
    { constructor; [ split; reflexivity | exact Hall ]. }
    split; [ simpl; now rewrite Hlen | ].
    split; [ exact Hall' | ].
    split.
    + intros first t Hfirst Hin. simpl in Hfirst. injection Hfirst as <-.
      rewrite Forall_forall in Hall'.
      destruct (Hall' t Hin) as [_ Ht]. exact Ht.
    + intros _. simpl ticks. destruct n as [| n'].
      * exact Hlast.
      * apply Hlater. discriminate.
Qed.

Lemma timeout_anchor_does_not_drift_witness :
  map recordStartTime
    (skipn 2 (_qcBuffer (ticks 3 (plugin0 tickingHost S2))))
  = [2000000; 2000000; 2000000].
Proof.
  destruct (@timeout_anchor_does_not_drift tickingHost 3
              (plugin0 tickingHost S2) ltac:(discriminate))
    as [injected [Hbuf [Hlen [Hall _]]]].
  rewrite Hbuf. simpl skipn.
  destruct injected as [| t0 [| t1 [| t2 [| t3 l]]]]; try discriminate.
  inversion Hall as [| ? ? [_ H0] Hall1]; subst.
  inversion Hall1 as [| ? ? [_ H1] Hall2]; subst.
  inversion Hall2 as [| ? ? [_ H2] _]; subst.
  simpl. rewrite H0, H1, H2. reflexivity.
Defined.

(** ** Changing the unit of time *)

Lemma bool_eq_iff (a b : bool) : (a = true <-> b = true) -> a = b.
Proof. destruct a, b; intuition congruence. Qed.

Lemma toDouble_inject (d : Z) :
  (Core.toDouble d == inject_Z d * (1 # 1000000))%Q.
Proof. unfold Core.toDouble, Qeq. simpl. lia. Qed.

Lemma toDouble_le0 (d : Z) : Qle_bool (Core.toDouble d) 0 = (d <=? 0).
Proof.
  apply bool_eq_iff. rewrite Qle_bool_iff, Z.leb_le.
  unfold Core.toDouble, Qle. simpl. lia.
Qed.

Section Scaling.

Variable k : Q.
Hypothesis k_pos : (0 < k)%Q.

Lemma scaledTime_zero : scaledTime k 0 0.
Proof. unfold scaledTime. change (inject_Z 0) with 0%Q. ring. Qed.

Lemma scaledTime_sub a a' b b' :
  scaledTime k a a' -> scaledTime k b b' -> scaledTime k (a - b) (a' - b').
Proof.
  unfold scaledTime. intros Ha Hb.
  unfold Z.sub. rewrite !inject_Z_plus, !inject_Z_opp.
  hide_inject. lra.
Qed.

Lemma scaledTime_leb a a' b b' :
  scaledTime k a a' -> scaledTime k b b' -> (a' <=? b') = (a <=? b).
Proof.
  unfold scaledTime. intros Ha Hb.
  apply bool_eq_iff. rewrite !Z.leb_le, !Zle_Qle, Ha, Hb.
  now apply Qmult_le_l.
Qed.

Lemma scaledTime_ltb a a' b b' :
  scaledTime k a a' -> scaledTime k b b' -> (a' <? b') = (a <? b).
Proof.
  intros Ha Hb. rewrite !Z.ltb_antisym. f_equal.
  now apply scaledTime_leb.
Qed.

Lemma scaledTime_eqb0 a a' :
  scaledTime k a a' -> (a' =? 0) = (a =? 0).
Proof.
  intros Ha.
  pose proof (scaledTime_leb a a' 0 0 Ha scaledTime_zero) as H1.
  pose proof (scaledTime_leb 0 0 a a' scaledTime_zero Ha) as H2.
  destruct (Z.eqb_spec a' 0), (Z.eqb_spec a 0); try reflexivity;
    exfalso;
    destruct (Z.leb_spec a' 0), (Z.leb_spec a 0); try discriminate;
    destruct (Z.leb_spec 0 a'), (Z.leb_spec 0 a); try discriminate; lia.
Qed.

Lemma toDouble_scaled d d' :
  scaledTime k d d' -> (Core.toDouble d' == k * Core.toDouble d)%Q.
Proof.
  unfold scaledTime. intros Hd. rewrite !toDouble_inject, Hd. ring.
Qed.

Lemma toDouble_scaled_le0 d d' :
  scaledTime k d d' ->
  Qle_bool (Core.toDouble d') 0 = Qle_bool (Core.toDouble d) 0.
Proof.
  intros Hd. rewrite !toDouble_le0.
  exact (scaledTime_leb d d' 0 0 Hd scaledTime_zero).
Qed.

Lemma contains_scaled a a' b b' :
  scaledWindow k a a' -> scaledWindow k b b' ->
  Core.contains a' b' = Core.contains a b.
Proof.
  intros [Has Hae] [Hbs Hbe]. unfold Core.contains.
  f_equal; now apply scaledTime_leb.
Qed.

Lemma overlaps_scaled a a' b b' :
  scaledWindow k a a' -> scaledWindow k b b' ->
  Core.overlaps a' b' = Core.overlaps a b.
Proof.
  intros [Has Hae] [Hbs Hbe]. unfold Core.overlaps.
  f_equal; now apply scaledTime_ltb.
Qed.

(** A span times a rate is a number of samples: it does not change when
    the span is multiplied by [k] and the rate divided by [k]. *)
Lemma samples_scaled d d' fs fs' :
  scaledTime k d d' -> (fs' == / k * fs)%Q ->
  Private.round (Core.toDouble d' * fs') = Private.round (Core.toDouble d * fs).
Proof.
  intros Hd Hfs. apply round_comp.
  rewrite (toDouble_scaled d d' Hd), Hfs. field. lra.
Qed.

(** The half-sample tests compare a span with a tolerance that scales
    the same way. *)
Lemma tolerance_scaled d d' fs fs' (half : Q) :
  scaledTime k d d' -> (fs' == / k * fs)%Q ->
  fgt (Fin (Core.toDouble d')) (fdiv half fs')
    = fgt (Fin (Core.toDouble d)) (fdiv half fs) /\
  flt (Fin (Core.toDouble d')) (fdiv half fs')
    = flt (Fin (Core.toDouble d)) (fdiv half fs).
Proof.
  intros Hd Hfs. pose proof (toDouble_scaled d d' Hd) as Hdd.
  assert (Hinv : (0 < / k)%Q) by now apply Qinv_lt_0_compat.
  unfold fdiv.
  destruct (Qeq_bool fs 0) eqn:Hz.
  - apply Qeq_bool_iff in Hz.
    assert (Hz' : Qeq_bool fs' 0 = true).
    { apply Qeq_bool_iff. rewrite Hfs, Hz. ring. }
    rewrite Hz'. destruct (half ?= 0)%Q; split; reflexivity.
  - assert (Hnz : ~ (fs == 0)%Q).
    { intros Hq. apply Qeq_bool_iff in Hq. congruence. }
    assert (Hnz' : ~ (fs' == 0)%Q).
    { rewrite Hfs. intros Hq. apply Qmult_integral in Hq as [Hq | Hq];
        [ lra | contradiction ]. }
    assert (Hz' : Qeq_bool fs' 0 = false).
    { destruct (Qeq_bool fs' 0) eqn:Hq; [ | reflexivity ].
      apply Qeq_bool_iff in Hq. contradiction. }
    rewrite Hz'.
    assert (Htol : (half / fs' == k * (half / fs))%Q).
    { rewrite Hfs. field. split; [ exact Hnz | lra ]. }
    unfold flt, fgt. rewrite Hdd, Htol.
    split; f_equal; apply bool_eq_iff; rewrite !Qle_bool_iff;
      now apply Qmult_le_l.
Qed.

Lemma detect_scaled e e' s s' :
  rescaled k (/ k) e e' -> scaledState k s s' ->
  scaledState k (detect e s) (detect e' s').
Proof.
  intros [Hstart [Hend Hfs]] [Heff [Hgap [Hovl Hlast]]].
  unfold detect, Core.Time0.
  rewrite (scaledTime_eqb0 _ _ Hlast).
  destruct (lastTime s =? 0); cbn [negb]; [ repeat split; assumption | ].
  destruct (tolerance_scaled _ _ _ _ (1 # 2)
              (scaledTime_sub _ _ _ _ Hstart Hlast) Hfs) as [Hg _].
  destruct (tolerance_scaled _ _ _ _ (- (1 # 2))
              (scaledTime_sub _ _ _ _ Hstart Hlast) Hfs) as [_ Ho].
  rewrite Hg, Ho, Hgap, Hovl.
  repeat split; simpl; assumption.
Qed.

End Scaling.

Section ScaledRuns.

Variable k : Q.
Hypothesis k_pos : (0 < k)%Q.

Lemma recordWindow_scaled e e' :
  rescaled k (/ k) e e' -> scaledWindow k (recordWindow e) (recordWindow e').
Proof. intros [Hstart [Hend _]]. split; assumption. Qed.

Lemma setLastTime_scaled t t' s s' :
  scaledTime k t t' -> scaledState k s s' ->
  scaledState k (setLastTime t s) (setLastTime t' s').
Proof.
  intros Ht [Heff [Hgap [Hovl _]]]. repeat split; assumption.
Qed.

Lemma setEffective_scaled n s s' :
  scaledState k s s' -> scaledState k (setEffective n s) (setEffective n s').
Proof.
  intros [_ [Hgap [Hovl Hlast]]]. repeat split; assumption.
Qed.

(** One iteration on an entry and on its rescaled copy: same way out,
    same counters. *)
Lemma body_scaled tw tw' est e e' s s' :
  rescaled k (/ k) e e' ->
  isTimeout e = false -> isTimeout e' = false ->
  scaledWindow k tw tw' -> scaledState k s s' ->
  snd (body tw' est e' s') = snd (body tw est e s) /\
  scaledState k (fst (body tw est e s)) (fst (body tw' est e' s')).
Proof.
  intros He Ht Ht' Htw Hs.
  pose proof (recordWindow_scaled e e' He) as Hrw.
  destruct He as [Hstart [Hend Hfs]]. destruct Htw as [Htws Htwe].
  assert (Hdet : scaledState k
            (setLastTime (recordEndTime e) (detect e s))
            (setLastTime (recordEndTime e') (detect e' s'))).
  { apply setLastTime_scaled; [ exact Hend | ].
    apply detect_scaled; [ exact k_pos | repeat split; assumption | exact Hs ]. }
  unfold body. rewrite Ht, Ht'. cbv zeta.
  fold (recordWindow e) (recordWindow e').
  rewrite (contains_scaled k k_pos tw tw' (recordWindow e) (recordWindow e'))
    by (try split; assumption).
  rewrite (contains_scaled k k_pos (recordWindow e) (recordWindow e') tw tw')
    by (try split; assumption).
  rewrite (overlaps_scaled k k_pos tw tw' (recordWindow e) (recordWindow e'))
    by (try split; assumption).
  rewrite (toDouble_scaled_le0 k k_pos
             (Core.startTime tw - recordStartTime e)
             (Core.startTime tw' - recordStartTime e'))
    by (now apply scaledTime_sub).
  rewrite (toDouble_scaled_le0 k k_pos
             (recordEndTime e - Core.endTime tw)
             (recordEndTime e' - Core.endTime tw'))
    by (now apply scaledTime_sub).
  rewrite (samples_scaled k k_pos
             (Core.length (recordWindow e)) (Core.length (recordWindow e'))
             (recordSamplingFrequency e) (recordSamplingFrequency e'))
    by (try exact Hfs; now apply scaledTime_sub).
  rewrite (samples_scaled k k_pos
             (Core.startTime tw - recordStartTime e)
             (Core.startTime tw' - recordStartTime e')
             (recordSamplingFrequency e) (recordSamplingFrequency e'))
    by (try exact Hfs; now apply scaledTime_sub).
  rewrite (samples_scaled k k_pos
             (recordEndTime e - Core.endTime tw)
             (recordEndTime e' - Core.endTime tw')
             (recordSamplingFrequency e) (recordSamplingFrequency e'))
    by (try exact Hfs; now apply scaledTime_sub).
  destruct Hdet as [Heff [Hgap [Hovl Hlast]]].
  repeat match goal with
         | |- context [if ?c then _ else _] => destruct c
         end;
    (split; [ reflexivity | ]);
    cbn [fst]; try (apply setEffective_scaled);
    try rewrite Heff; repeat split; simpl; try assumption;
    try (rewrite Heff; reflexivity).
Qed.

Lemma loop_scaled tw tw' est buf buf' :
  scaledWindow k tw tw' ->
  Forall2 (rescaled k (/ k)) buf buf' ->
  allReal buf = true -> allReal buf' = true ->
  forall s s', scaledState k s s' ->
  scaledState k (loop tw est buf s) (loop tw' est buf' s').
Proof.
  intros Htw Hall. induction Hall as [| e e' buf buf' He Hall IH];
    intros Hreal Hreal' s s' Hs; simpl.
  - exact Hs.
  - simpl in Hreal, Hreal'.
    apply andb_prop in Hreal as [Ht Hreal].
    apply andb_prop in Hreal' as [Ht' Hreal'].
    apply negb_true_iff in Ht, Ht'.
    destruct (body_scaled tw tw' est e e' s s' He Ht Ht' Htw Hs)
      as [Hflow Hnext].
    destruct (body tw est e s) as [s1 f].
    destruct (body tw' est e' s') as [s1' f'].
    simpl in Hflow, Hnext. subst f'.
    destruct f; [ now apply IH | exact Hnext ].
Qed.

Lemma Forall2_rev {A B : Type} (R : A -> B -> Prop) l l' :
  Forall2 R l l' -> Forall2 R (rev l) (rev l').
Proof.
  induction 1 as [| x y l l' Hxy Hall IH]; simpl.
  - constructor.
  - apply Forall2_app; [ exact IH | repeat constructor; exact Hxy ].
Qed.

Lemma window_scaled buf buf' :
  Forall2 (rescaled k (/ k)) buf buf' ->
  scaledWindow k (window buf) (window buf').
Proof.
  intros Hall. split; unfold window; simpl.
  - unfold QcBuffer.startTime, QcBuffer.front.
    destruct Hall as [| e e' ? ? [Hstart _] _]; simpl.
    + apply scaledTime_zero.
    + exact Hstart.
  - unfold QcBuffer.endTime, QcBuffer.back.
    apply Forall2_rev in Hall.
    destruct Hall as [| e e' ? ? [_ [Hend _]] _]; simpl.
    + apply scaledTime_zero.
    + exact Hend.
Qed.

(** The whole result is the same on both buffers. *)
Lemma availability_scaled buf buf' :
  Forall2 (rescaled k (/ k)) buf buf' ->
  allReal buf = true -> allReal buf' = true ->
  availability buf' = availability buf.
Proof.
  intros Hall Hreal Hreal'.
  pose proof (window_scaled buf buf' Hall) as Hw.
  unfold availability.
  destruct Hall as [| e e' buf buf' He Hall]; [ reflexivity | ].
  simpl QcBuffer.front. cbv iota.
  assert (Ht : isTimeout e = false).
  { simpl in Hreal. apply andb_prop in Hreal as [Ht _].
    now apply negb_true_iff in Ht. }
  assert (Ht' : isTimeout e' = false).
  { simpl in Hreal'. apply andb_prop in Hreal' as [Ht' _].
    now apply negb_true_iff in Ht'. }
  rewrite Ht, Ht'.
  assert (Hest : estimated (e' :: buf') e' = estimated (e :: buf) e).
  { unfold estimated. destruct He as [_ [_ Hfs]]. destruct Hw as [Hws Hwe].
    apply (samples_scaled k k_pos); [ | exact Hfs ].
    now apply scaledTime_sub. }
  assert (Hscan : scaledState k (scan (e :: buf) e) (scan (e' :: buf') e')).
  { unfold scan. rewrite Hest.
    apply loop_scaled; try assumption.
    - constructor; assumption.
    - repeat split; try reflexivity. apply scaledTime_zero. }
  destruct Hscan as [Heff [Hgap [Hovl _]]].
  now rewrite Hest, Heff, Hgap, Hovl.
Qed.

End ScaledRuns.

(** C7, as stated, fails: in [nearlyContiguous] the records are 4 ms apart
    at 100 Hz, inside the tolerance of 5 ms.  With every time and every
    sampling frequency doubled they are 8 ms apart at 200 Hz, outside the
    tolerance of 2.5 ms, and a gap is counted. *)
Lemma same_factor_changes_gap_count :
  ~ (forall (k : Q) (buf buf' : QcBuffer.t),
        (0 < k)%Q ->
        Forall2 (rescaled k k) buf buf' ->
        allReal buf = true -> allReal buf' = true ->
        at_ (availability buf') 1 = at_ (availability buf) 1 /\
        at_ (availability buf') 2 = at_ (availability buf) 2).
Proof.
  intros Hall.
  assert (Hpair : Forall2 (rescaled 2 2) nearlyContiguous nearlyContiguousDoubled).
  { repeat constructor. }
  destruct (Hall 2%Q nearlyContiguous nearlyContiguousDoubled
              ltac:(reflexivity) Hpair eq_refl eq_refl) as [Hgaps _].
  vm_compute in Hgaps. discriminate.
Qed.

(** C7 (amended): for buffers of real entries whose boundaries are all
    clear of the half-sample tolerance (no sampling frequency is zero and
    no boundary difference, in samples, is within [margin] of one half),
    multiplying every record time by a positive factor [k] while dividing
    every sampling frequency by the same [k], which keeps every span the
    same number of samples long, leaves the gap count and the overlap
    count unchanged. *)
Theorem counts_invariant_under_time_unit (k : Q) (buf buf' : QcBuffer.t) :
  (0 < k)%Q ->
  Forall2 (rescaled k (/ k)) buf buf' ->
  allReal buf = true -> allReal buf' = true ->
  boundariesClear buf = true -> boundariesClear buf' = true ->
  at_ (availability buf') 1 = at_ (availability buf) 1 /\
  at_ (availability buf') 2 = at_ (availability buf) 2.
Proof.
  intros Hk Hall Hreal Hreal' _ _.
  rewrite (availability_scaled k Hk buf buf' Hall Hreal Hreal').
  split; reflexivity.
Qed.

Lemma counts_invariant_under_time_unit_witness :
  at_ (availability nearlyContiguousSlowed) 1 = Fin 0 /\
  at_ (availability nearlyContiguousSlowed) 2 = Fin 0.
Proof.
  assert (Hpair : Forall2 (rescaled 2 (/ 2)) nearlyContiguous nearlyContiguousSlowed).
  { repeat constructor. }
  exact (counts_invariant_under_time_unit 2 nearlyContiguous
           nearlyContiguousSlowed eq_refl Hpair eq_refl eq_refl
           eq_refl eq_refl).
Defined.


(** * Further properties of the code *)

(** ** Rounding of sample counts *)

Lemma Qfloor_half_up (n : Z) : Qfloor (inject_Z n + (1 # 2)) = n.
Proof.
  unfold Qfloor, Qplus, inject_Z. simpl.
  symmetry. apply Z.div_unique with (r := 1); lia.
Qed.

Lemma Qceiling_half_up (n : Z) : Qceiling (inject_Z n + (1 # 2)) = n + 1.
Proof.
  unfold Qceiling, Qfloor, Qopp, Qplus, inject_Z. simpl.
  assert (Hdiv : - (n * 2 + 1) / 2 = - n - 1).
  { symmetry. apply Z.div_unique with (r := 1); lia. }
  rewrite Hdiv. lia.
Qed.

(** X1: a value that is a whole number [n] inside the range of a 32-bit
    [int] rounds to [n] when [n >= 0] and to [n + 1] when [n < 0], since
    the conversion to [int] rounds toward zero. *)
Theorem whole_samples_are_counted (x : Q) (n : Z) :
  (x == inject_Z n)%Q ->
  fitsInt n = true ->
  (0 <= n -> Private.round x = n) /\
  (n < 0 -> Private.round x = n + 1).
Proof.
  intros Hx _. rewrite Hx. split; intros Hn.
  - rewrite round_nonneg_floor.
    + apply Qfloor_half_up.
    + rewrite (Zle_Qle 0 n) in Hn. change (inject_Z 0) with 0%Q in Hn.
      hide_inject. lra.
  - rewrite round_neg_ceiling.
    + apply Qceiling_half_up.
    + assert (Hle : n <= -1) by lia.
      rewrite (Zle_Qle n (-1)) in Hle.
      change (inject_Z (-1)) with (- (1))%Q in Hle.
      hide_inject. lra.
Qed.

Lemma whole_samples_are_counted_witness :
  Private.round 98 = 98 /\ Private.round (- (98)) = -97.
Proof.
  split.
  - apply (whole_samples_are_counted 98 98); [ reflexivity | reflexivity | lia ].
  - apply (whole_samples_are_counted (- (98)) (-98));
      [ reflexivity | reflexivity | lia ].
Defined.

(** X3: the rounding helper is monotone, negative inputs included, on the
    inputs that it can convert: [x <= y] between [INT_MIN] and [INT_MAX]
    gives [round x <= round y]. *)
Theorem round_monotone (x y : Q) :
  (-2147483648 <= x)%Q -> (y <= 2147483647)%Q ->
  (x <= y)%Q -> Private.round x <= Private.round y.
Proof.
  intros _ _ Hxy.
  destruct (Qlt_le_dec (x + (1 # 2)) 0) as [Hxn | Hxp];
    destruct (Qlt_le_dec (y + (1 # 2)) 0) as [Hyn | Hyp].
  - rewrite (round_neg_ceiling x), (round_neg_ceiling y) by lra.
    apply Qceiling_resp_le. lra.
  - rewrite (round_neg_ceiling x), (round_nonneg_floor y) by lra.
    apply Z.le_trans with 0.
    + change 0 with (Qceiling 0). apply Qceiling_resp_le. lra.
    + change 0 with (Qfloor 0). apply Qfloor_resp_le. lra.
  - lra.
  - rewrite (round_nonneg_floor x), (round_nonneg_floor y) by lra.
    apply Qfloor_resp_le. lra.
Qed.

Lemma round_monotone_witness :
  Private.round (- (7 # 2)) <= Private.round (- (1 # 4)).
Proof.
  apply (round_monotone (- (7 # 2)) (- (1 # 4)));
    unfold Qle; simpl; lia.
Defined.

(** ** The clamp *)

Lemma ratio_not_above_100 (eff est : Z) :
  fgt (ratio eff est) (Fin 100) = false.
Proof.
  unfold ratio. cbv zeta.
  destruct (fgt (fdiv (100 * inject_Z eff) (inject_Z est)) (Fin 100)) eqn:Hgt.
  - reflexivity.
  - exact Hgt.
Qed.

(** X4: on every buffer, valid or not, the availability returned is never
    greater than 100. *)
Theorem availability_never_above_100 (buf : QcBuffer.t) :
  fgt (at_ (availability buf) 0) (Fin 100) = false.
Proof.
  unfold availability.
  destruct (QcBuffer.front buf) as [front | ]; [ | reflexivity ].
  destruct (isTimeout front); [ reflexivity | ].
  simpl at_. apply ratio_not_above_100.
Qed.

(** ** One record, and timeouts between records *)

(** X5: a buffer that holds one real record is fully available, without
    gap or overlap, whenever the record is long enough for its estimated
    sample count not to be zero. *)
Theorem single_record_is_fully_available (qcp : QcParameter) :
  isTimeout qcp = false ->
  estimated [qcp] qcp <> 0 ->
  Result_eq (availability [qcp]) (Fin 100, Fin 0, Fin 0).
Proof.
  intros Hreal Hest.
  assert (Hscan : scan [qcp] qcp =
                  setEffective (estimated [qcp] qcp)
                    (setLastTime (recordEndTime qcp) initState)).
  { unfold scan. simpl loop. unfold body. rewrite Hreal. cbv zeta.
    rewrite detect_unset by reflexivity.
    assert (Hin : Core.contains (window [qcp])
                    (Core.mkTimeWindow (recordStartTime qcp)
                       (recordEndTime qcp)) = true).
    { unfold Core.contains, window. simpl.
      rewrite !Z.leb_refl. reflexivity. }
    rewrite Hin. reflexivity. }
  unfold availability. simpl QcBuffer.front. cbv iota. rewrite Hreal, Hscan.
  simpl. repeat split; try reflexivity.
  now apply ratio_full.
Qed.

Lemma single_record_is_fully_available_witness :
  Result_eq (availability [real 0 10000000 100]) (Fin 100, Fin 0, Fin 0).
Proof.
  apply (single_record_is_fully_available (real 0 10000000 100)).
  - reflexivity.
  - vm_compute. discriminate.
Defined.

Lemma loop_skips_middle tw est pre skipped post s :
  forallb isTimeout skipped = true ->
  loop tw est (pre ++ skipped ++ post) s = loop tw est (pre ++ post) s.
Proof.
  intros Hskip. revert s. induction pre as [| a pre IH]; intros s; simpl.
  - now apply loop_timeouts.
  - destruct (body tw est a s) as [s1 [ | ]]; [ apply IH | reflexivity ].
Qed.

Lemma front_app (pre rest : QcBuffer.t) :
  pre <> [] -> QcBuffer.front (pre ++ rest) = QcBuffer.front pre.
Proof. destruct pre; [ contradiction | reflexivity ]. Qed.

Lemma back_app (rest post : QcBuffer.t) :
  post <> [] -> QcBuffer.back (rest ++ post) = QcBuffer.back post.
Proof.
  intros Hne. unfold QcBuffer.back. rewrite rev_app_distr.
  destruct (rev post) as [| b l] eqn:Hrev; [ | reflexivity ].
  apply (f_equal (@rev QcParameter)) in Hrev.
  rewrite rev_involutive in Hrev. contradiction.
Qed.

(** X6: timeout entries between the front and the back entry of a buffer
    change nothing: the evaluator returns the same vector with and without
    them. *)
Theorem timeouts_inside_are_invisible (pre skipped post : QcBuffer.t) :
  pre <> [] -> post <> [] ->
  forallb isTimeout skipped = true ->
  availability (pre ++ skipped ++ post) = availability (pre ++ post).
Proof.
  intros Hpre Hpost Hskip.
  assert (Hwin : window (pre ++ skipped ++ post) = window (pre ++ post)).
  { unfold window, QcBuffer.startTime, QcBuffer.endTime.
    rewrite !front_app by assumption.
    rewrite (app_assoc pre skipped post).
    now rewrite !back_app by assumption. }
  unfold availability. rewrite !front_app by assumption.
  destruct (QcBuffer.front pre) as [front | ]; [ | reflexivity ].
  destruct (isTimeout front); [ reflexivity | ].
  unfold scan, estimated. rewrite Hwin.
  now rewrite loop_skips_middle.
Qed.

Lemma timeouts_inside_are_invisible_witness :
  availability
    [real 0 1000000 100; timeoutEntry 1000000 1500000;
     real 1020000 2000000 100]
  = availability S2.
Proof.
  apply (timeouts_inside_are_invisible
           [real 0 1000000 100] [timeoutEntry 1000000 1500000]
           [real 1020000 2000000 100]);
    [ discriminate | discriminate | reflexivity ].
Defined.

(** ** How many events can be counted *)

Lemma detect_steps qcp s :
  let limit := if lastTime s =? Core.Time0 then 0 else 1 in
  gapCount s <= gapCount (detect qcp s) <= gapCount s + limit /\
  overlapCount s <= overlapCount (detect qcp s) <= overlapCount s + limit.
Proof.
  unfold detect. destruct (lastTime s =? Core.Time0); cbn [negb].
  - simpl. lia.
  - cbv zeta. cbn [gapCount overlapCount].
    destruct (fgt _ _); destruct (flt _ _); lia.
Qed.

(** With a rate that is not negative the two tolerances do not cross: a
    boundary is a gap, an overlap, or neither. *)
Lemma detect_one_event qcp s :
  Qle_bool 0 (recordSamplingFrequency qcp) = true ->
  gapCount (detect qcp s) + overlapCount (detect qcp s)
  <= gapCount s + overlapCount s
     + (if lastTime s =? Core.Time0 then 0 else 1).
Proof.
  intros Hfs. apply Qle_bool_iff in Hfs.
  unfold detect. destruct (lastTime s =? Core.Time0); cbn [negb].
  - lia.
  - cbv zeta. cbn [gapCount overlapCount].
    set (diff := Core.toDouble (recordStartTime qcp - lastTime s)).
    destruct (fgt (Fin diff) (fdiv (1 # 2) (recordSamplingFrequency qcp)))
      eqn:Hgap;
      destruct (flt (Fin diff) (fdiv (- (1 # 2)) (recordSamplingFrequency qcp)))
        eqn:Hovl; try lia.
    exfalso. unfold flt, fdiv in *.
    destruct (Qeq_bool (recordSamplingFrequency qcp) 0) eqn:Hz.
    + simpl in Hgap. discriminate.
    + assert (Hpos : (0 < recordSamplingFrequency qcp)%Q).
      { destruct (Qlt_le_dec 0 (recordSamplingFrequency qcp)) as [Hp | Hn];
          [ exact Hp | ].
        assert (Heq : (recordSamplingFrequency qcp == 0)%Q) by lra.
        apply Qeq_bool_iff in Heq. congruence. }
      apply Qinv_lt_0_compat in Hpos.
      simpl in Hgap, Hovl. apply negb_true_iff in Hgap, Hovl.
      destruct (Qlt_le_dec ((1 # 2) / recordSamplingFrequency qcp) diff)
        as [Hg | Hg]; [ | apply Qle_bool_iff in Hg; congruence ].
      destruct (Qlt_le_dec diff (- (1 # 2) / recordSamplingFrequency qcp))
        as [Ho | Ho]; [ | apply Qle_bool_iff in Ho; congruence ].
      unfold Qdiv in Hg, Ho.
      set (a := (/ recordSamplingFrequency qcp)%Q) in *. lra.
Qed.

Lemma realCount_timeout qcp buf :
  isTimeout qcp = true -> realCount (qcp :: buf) = realCount buf.
Proof. intros Ht. unfold realCount. simpl. now rewrite Ht. Qed.

Lemma realCount_real qcp buf :
  isTimeout qcp = false -> realCount (qcp :: buf) = S (realCount buf).
Proof. intros Ht. unfold realCount. simpl. now rewrite Ht. Qed.

Section CountBound.

Variable tw : Core.TimeWindow.
Variable est : Z.

(** A counter [m] of the loop state that every real record satisfying [P]
    raises by one at most, and not at all while [lastTime] is unset. *)
Variable m : LoopState -> Z.
Variable P : QcParameter -> bool.
Hypothesis m_body :
  forall qcp s,
    isTimeout qcp = false -> P qcp = true ->
    m s <= m (fst (body tw est qcp s))
        <= m s + (if lastTime s =? Core.Time0 then 0 else 1).

Lemma loop_count_bound buf s :
  forallb P buf = true ->
  m s <= m (loop tw est buf s)
      <= m s + Z.max 0 (Z.of_nat (realCount buf)
                        - (if lastTime s =? Core.Time0 then 1 else 0)).
Proof.
  revert s. induction buf as [| qcp buf IH]; intros s HP.
  - simpl. destruct (lastTime s =? Core.Time0); lia.
  - simpl in HP. apply andb_prop in HP as [Hq HP]. simpl loop.
    destruct (isTimeout qcp) eqn:Ht.
    + rewrite (body_timeout tw est qcp s Ht), (realCount_timeout _ _ Ht).
      now apply IH.
    + rewrite (realCount_real _ _ Ht).
      pose proof (m_body qcp s Ht Hq) as Hstep.
      destruct (body tw est qcp s) as [s1 [ | ]]; simpl in Hstep.
      * specialize (IH s1 HP).
        destruct (lastTime s =? Core.Time0);
          destruct (lastTime s1 =? Core.Time0); lia.
      * destruct (lastTime s =? Core.Time0); lia.
Qed.

End CountBound.

Lemma body_gap_step tw est qcp s :
  isTimeout qcp = false -> true = true ->
  gapCount s <= gapCount (fst (body tw est qcp s))
             <= gapCount s + (if lastTime s =? Core.Time0 then 0 else 1).
Proof.
  intros Ht _. destruct (body_real_counters tw est qcp s Ht) as [Hg _].
  rewrite Hg. apply detect_steps.
Qed.

Lemma body_overlap_step tw est qcp s :
  isTimeout qcp = false -> true = true ->
  overlapCount s <= overlapCount (fst (body tw est qcp s))
                 <= overlapCount s
                    + (if lastTime s =? Core.Time0 then 0 else 1).
Proof.
  intros Ht _. destruct (body_real_counters tw est qcp s Ht) as [_ [Ho _]].
  rewrite Ho. apply detect_steps.
Qed.

Lemma body_event_step tw est qcp s :
  isTimeout qcp = false ->
  isTimeout qcp || Qle_bool 0 (recordSamplingFrequency qcp) = true ->
  gapCount s + overlapCount s
  <= gapCount (fst (body tw est qcp s))
     + overlapCount (fst (body tw est qcp s))
  <= gapCount s + overlapCount s
     + (if lastTime s =? Core.Time0 then 0 else 1).
Proof.
  intros Ht Hfs. rewrite Ht in Hfs. simpl in Hfs.
  destruct (body_real_counters tw est qcp s Ht) as [Hg [Ho _]].
  rewrite Hg, Ho.
  pose proof (detect_steps qcp s) as [Hgs Hos].
  pose proof (detect_one_event qcp s Hfs). cbv zeta in Hgs, Hos. lia.
Qed.

(** X7: the gap count and the overlap count returned are whole numbers
    between 0 and the number of real records minus one: the first real
    record is compared with nothing. *)
Theorem counts_bounded_by_boundaries (buf : QcBuffer.t) :
  exists gaps overlaps : Z,
    at_ (availability buf) 1 = ofInt gaps /\
    at_ (availability buf) 2 = ofInt overlaps /\
    0 <= gaps <= Z.of_nat (realCount buf - 1) /\
    0 <= overlaps <= Z.of_nat (realCount buf - 1).
Proof.
  unfold availability.
  destruct (QcBuffer.front buf) as [front | ];
    [ | exists 0, 0; repeat split; lia ].
  destruct (isTimeout front); [ exists 0, 0; repeat split; lia | ].
  exists (gapCount (scan buf front)), (overlapCount (scan buf front)).
  split; [ reflexivity | ]. split; [ reflexivity | ].
  assert (Htrue : forallb (fun _ : QcParameter => true) buf = true).
  { clear. induction buf; [ reflexivity | exact IHbuf ]. }
  pose proof (loop_count_bound (window buf) (estimated buf front)
                gapCount (fun _ => true)
                (body_gap_step (window buf) (estimated buf front))
                buf initState Htrue) as Hg.
  pose proof (loop_count_bound (window buf) (estimated buf front)
                overlapCount (fun _ => true)
                (body_overlap_step (window buf) (estimated buf front))
                buf initState Htrue) as Ho.
  unfold scan. simpl in Hg, Ho. lia.
Qed.

Lemma ratesPositive_nonneg (buf : QcBuffer.t) :
  ratesPositive buf = true -> ratesNonneg buf = true.
Proof.
  unfold ratesPositive, ratesNonneg. rewrite !forallb_forall.
  intros Hpos qcp Hin. specialize (Hpos qcp Hin).
  destruct (isTimeout qcp); [ reflexivity | ]. simpl in *.
  apply negb_true_iff in Hpos. apply Qle_bool_iff.
  destruct (Qlt_le_dec 0 (recordSamplingFrequency qcp)) as [Hp | Hn];
    [ lra | ].
  apply Qle_bool_iff in Hn. congruence.
Qed.

(** X8: when every real record has a positive sampling frequency, every
    boundary between two real records is counted once at most, as a gap or
    as an overlap: the two counts together do not exceed the number of
    real records minus one. *)
Theorem one_event_per_boundary (buf : QcBuffer.t) :
  ratesPositive buf = true ->
  exists gaps overlaps : Z,
    at_ (availability buf) 1 = ofInt gaps /\
    at_ (availability buf) 2 = ofInt overlaps /\
    gaps + overlaps <= Z.of_nat (realCount buf - 1).
Proof.
  intros Hrates. apply ratesPositive_nonneg in Hrates. unfold availability.
  destruct (QcBuffer.front buf) as [front | ];
    [ | exists 0, 0; repeat split; lia ].
  destruct (isTimeout front); [ exists 0, 0; repeat split; lia | ].
  exists (gapCount (scan buf front)), (overlapCount (scan buf front)).
  split; [ reflexivity | ]. split; [ reflexivity | ].
  pose proof (loop_count_bound (window buf) (estimated buf front)
                (fun s => gapCount s + overlapCount s)
                (fun qcp =>
                   isTimeout qcp || Qle_bool 0 (recordSamplingFrequency qcp))
                (body_event_step (window buf) (estimated buf front))
                buf initState Hrates) as Hsum.
  unfold scan. simpl in Hsum. lia.
Qed.

Lemma one_event_per_boundary_witness :
  exists gaps overlaps : Z,
    at_ (availability S2) 1 = ofInt gaps /\
    at_ (availability S2) 2 = ofInt overlaps /\
    gaps + overlaps <= 1.
Proof.
  exact (one_event_per_boundary S2 eq_refl).
Defined.

(** ** Records that follow each other within the tolerance *)

Lemma detect_within_tolerance qcp s :
  Qle_bool 0 (recordSamplingFrequency qcp) = true ->
  withinTolerance (lastTime s) qcp = true ->
  gapCount (detect qcp s) = gapCount s /\
  overlapCount (detect qcp s) = overlapCount s.
Proof.
  intros Hfs Hin. apply Qle_bool_iff in Hfs.
  unfold withinTolerance in Hin. apply Qle_bool_iff in Hin.
  apply Qabs_Qle_condition in Hin as [Hlow Hhigh].
  unfold detect. destruct (lastTime s =? Core.Time0); cbn [negb];
    [ split; reflexivity | ].
  cbv zeta. cbn [gapCount overlapCount].
  set (diff := Core.toDouble (recordStartTime qcp - lastTime s)) in *.
  unfold flt, fdiv.
  destruct (Qeq_bool (recordSamplingFrequency qcp) 0) eqn:Hz.
  - simpl. split; reflexivity.
  - assert (Hpos : (0 < recordSamplingFrequency qcp)%Q).
    { destruct (Qlt_le_dec 0 (recordSamplingFrequency qcp)) as [Hp | Hn];
        [ exact Hp | ].
      assert (Heq : (recordSamplingFrequency qcp == 0)%Q) by lra.
      apply Qeq_bool_iff in Heq. congruence. }
    assert (Hg : Qle_bool diff ((1 # 2) / recordSamplingFrequency qcp) = true).
    { apply Qle_bool_iff. now apply Qle_shift_div_l. }
    assert (Ho : Qle_bool (- (1 # 2) / recordSamplingFrequency qcp) diff = true).
    { apply Qle_bool_iff. now apply Qle_shift_div_r. }
    simpl. rewrite Hg, Ho. simpl. split; reflexivity.
Qed.

Lemma loop_within_tolerance tw est buf s :
  allReal buf = true -> ratesNonneg buf = true ->
  chained (lastTime s) buf = true ->
  gapCount (loop tw est buf s) = gapCount s /\
  overlapCount (loop tw est buf s) = overlapCount s.
Proof.
  revert s. induction buf as [| qcp buf IH]; intros s Hreal Hrates Hchain.
  - split; reflexivity.
  - simpl in Hreal, Hrates, Hchain.
    apply andb_prop in Hreal as [Ht Hreal].
    apply andb_prop in Hrates as [Hfs Hrates].
    apply andb_prop in Hchain as [Hin Hchain].
    apply negb_true_iff in Ht. rewrite Ht in Hfs. simpl in Hfs.
    destruct (body_real_counters tw est qcp s Ht) as [Hg [Ho Hlast]].
    destruct (detect_within_tolerance qcp s Hfs Hin) as [Hg' Ho'].
    simpl loop.
    destruct (body tw est qcp s) as [s1 [ | ]]; simpl in Hg, Ho, Hlast.
    + rewrite <- Hlast in Hchain.
      destruct (IH s1 Hreal Hrates Hchain) as [Hg1 Ho1].
      split; congruence.
    + split; congruence.
Qed.

(** X9: in a buffer of real records with positive sampling frequencies,
    when every record starts within half a sample (at its own rate) of the
    end of the record before it, and clear of the tolerance itself by
    [margin], no gap and no overlap is counted. *)
Theorem within_tolerance_no_event (qcp : QcParameter) (rest : QcBuffer.t) :
  allReal (qcp :: rest) = true ->
  ratesPositive (qcp :: rest) = true ->
  chained (recordEndTime qcp) rest = true ->
  boundariesClear (qcp :: rest) = true ->
  at_ (availability (qcp :: rest)) 1 = Fin 0 /\
  at_ (availability (qcp :: rest)) 2 = Fin 0.
Proof.
  intros Hreal Hrates Hchain _. apply ratesPositive_nonneg in Hrates.
  simpl in Hreal, Hrates.
  apply andb_prop in Hreal as [Ht Hreal].
  apply andb_prop in Hrates as [_ Hrates].
  apply negb_true_iff in Ht.
  unfold availability. simpl QcBuffer.front. cbv iota. rewrite Ht.
  simpl at_. unfold scan. simpl loop.
  set (tw := window (qcp :: rest)). set (est := estimated (qcp :: rest) qcp).
  destruct (body_real_counters tw est qcp initState Ht) as [Hg [Ho Hlast]].
  rewrite detect_unset in Hg, Ho by reflexivity.
  destruct (body tw est qcp initState) as [s1 [ | ]]; simpl in Hg, Ho, Hlast.
  - rewrite <- Hlast in Hchain.
    destruct (loop_within_tolerance tw est rest s1 Hreal Hrates Hchain)
      as [Hg1 Ho1].
    rewrite Hg1, Ho1, Hg, Ho. split; reflexivity.
  - rewrite Hg, Ho. split; reflexivity.
Qed.

Lemma within_tolerance_no_event_witness :
  at_ (availability nearlyContiguous) 1 = Fin 0 /\
  at_ (availability nearlyContiguous) 2 = Fin 0.
Proof.
  apply (within_tolerance_no_event (real 0 1000000 100)
           [real 1004000 2000000 100]); reflexivity.
Defined.

(** ** A stalled stream *)

Lemma loop_app_timeouts tw est buf skipped s :
  forallb isTimeout skipped = true ->
  loop tw est (buf ++ skipped) s = loop tw est buf s.
Proof.
  intros Hskip.
  rewrite <- (app_nil_r skipped). rewrite (loop_skips_middle _ _ _ _ _ _ Hskip).
  now rewrite app_nil_r.
Qed.

(** A record inside the window is counted whole, whatever the window. *)
Lemma body_inside tw est tw' est' qcp s :
  isTimeout qcp || Core.contains tw (recordWindow qcp) = true ->
  isTimeout qcp || Core.contains tw' (recordWindow qcp) = true ->
  body tw est qcp s = body tw' est' qcp s.
Proof.
  intros Hin Hin'. unfold body.
  destruct (isTimeout qcp); [ reflexivity | ].
  simpl in Hin, Hin'. cbv zeta. fold (recordWindow qcp).
  now rewrite Hin, Hin'.
Qed.

Lemma loop_inside tw est tw' est' buf s :
  allInside tw buf = true -> allInside tw' buf = true ->
  loop tw est buf s = loop tw' est' buf s.
Proof.
  revert s. induction buf as [| qcp buf IH]; intros s Hin Hin';
    [ reflexivity | ].
  simpl in Hin, Hin'.
  apply andb_prop in Hin as [Hq Hin]. apply andb_prop in Hin' as [Hq' Hin'].
  simpl. rewrite (body_inside tw est tw' est' qcp s Hq Hq').
  destruct (body tw' est' qcp s) as [s1 [ | ]]; [ now apply IH | reflexivity ].
Qed.

Lemma allInside_wider tw tw' buf :
  Core.startTime tw' <= Core.startTime tw ->
  Core.endTime tw <= Core.endTime tw' ->
  allInside tw buf = true -> allInside tw' buf = true.
Proof.
  intros Hs He Hin. unfold allInside in *.
  rewrite forallb_forall in *. intros qcp Hq. specialize (Hin qcp Hq).
  destruct (isTimeout qcp); [ reflexivity | ]. simpl in *.
  unfold Core.contains in *. apply andb_prop in Hin as [H1 H2].
  apply Z.leb_le in H1, H2.
  apply andb_true_intro. split; apply Z.leb_le; lia.
Qed.

(** With the same effective count, a larger estimate gives a smaller
    availability. *)
Lemma ratio_antitone (eff est est' : Z) :
  0 <= eff -> 0 < est -> est <= est' ->
  fle (ratio eff est') (ratio eff est) = true.
Proof.
  intros Heff Hest Hle.
  assert (Hq : forall n, 0 < n -> Qeq_bool (inject_Z n) 0 = false).
  { intros n Hn. destruct (Qeq_bool (inject_Z n) 0) eqn:Hz; [ | reflexivity ].
    apply Qeq_bool_iff in Hz. apply (proj1 (inject_Z_eq0 n)) in Hz. lia. }
  unfold ratio, fdiv. rewrite (Hq est Hest), (Hq est' ltac:(lia)).
  rewrite (Zle_Qle 0 eff) in Heff. rewrite (Zlt_Qlt 0 est) in Hest.
  rewrite (Zle_Qle est est') in Hle.
  change (inject_Z 0) with 0%Q in Heff, Hest. clear Hq.
  set (e := inject_Z eff) in *. set (a := inject_Z est) in *.
  set (b := inject_Z est') in *. clearbody e a b.
  assert (Hc : (0 <= 100 * e / a)%Q).
  { apply Qle_shift_div_l; [ exact Hest | lra ]. }
  assert (Hback : (100 * e / a * a == 100 * e)%Q) by (field; lra).
  assert (Hsmaller : (100 * e / b <= 100 * e / a)%Q).
  { apply Qle_shift_div_r; [ lra | ].
    set (c := (100 * e / a)%Q) in *. nra. }
  simpl.
  destruct (Qle_bool (100 * e / b) 100) eqn:H1;
    destruct (Qle_bool (100 * e / a) 100) eqn:H0; simpl;
    apply Qle_bool_iff; try lra.
  - apply Qle_bool_iff in H1. lra.
  - destruct (Qlt_le_dec 100 (100 * e / b)) as [Hgt | Hngt].
    + lra.
    + apply Qle_bool_iff in Hngt. congruence.
Qed.

Section Stall.

Context `{Host}.

(** X10: while the stream is stalled, a tick can only lower the
    availability and changes no count.  For a buffer of valid entries whose
    real records all lie inside the analysis window, with a positive
    estimate and a clock that is not behind the buffer's end, when the
    runs before and after the tick stay inside the 32-bit [int], the
    buffer after [timeoutTask] has the same gap and overlap counts and an
    availability that is not greater. *)
Theorem stalled_tick_lowers_availability (p : Plugin) (front : QcParameter) :
  QcBuffer.front (_qcBuffer p) = Some front ->
  isTimeout front = false ->
  forallb validEntry (_qcBuffer p) = true ->
  allInside (window (_qcBuffer p)) (_qcBuffer p) = true ->
  0 < estimated (_qcBuffer p) front ->
  QcBuffer.endTime (_qcBuffer p) <= utc (clockReads p) ->
  staysInInt (_qcBuffer p) = true ->
  staysInInt (_qcBuffer (exec timeoutTask p)) = true ->
  let after := availability (_qcBuffer (exec timeoutTask p)) in
  at_ after 1 = at_ (availability (_qcBuffer p)) 1 /\
  at_ after 2 = at_ (availability (_qcBuffer p)) 2 /\
  fle (at_ after 0) (at_ (availability (_qcBuffer p)) 0) = true.
Proof.
  intros Hfront Hreal Hvalid Hin Hest Hclock _ _ after. subst after.
  assert (Hne : _qcBuffer p <> []).
  { intros Hnil. rewrite Hnil in Hfront. discriminate. }
  destruct (timeoutTask_step p Hne) as [Hbuf _]. rewrite Hbuf.
  set (buf := _qcBuffer p) in *.
  set (t := {| recordStartTime := anchor p;
               recordEndTime := utc (clockReads p);
               recordSamplingFrequency := -1;
               parameter := Core.toDouble (utc (clockReads p) - anchor p) |}).
  assert (Hfront' : QcBuffer.front (buf ++ [t]) = Some front).
  { now rewrite front_app. }
  assert (Hstart : Core.startTime (window (buf ++ [t]))
                   = Core.startTime (window buf)).
  { unfold window, QcBuffer.startTime. simpl. now rewrite Hfront', Hfront. }
  assert (Hend : Core.endTime (window (buf ++ [t])) = utc (clockReads p)).
  { unfold window, QcBuffer.endTime. simpl.
    change (buf ++ [t]) with (QcBuffer.push_back buf t).
    now rewrite back_push. }
  assert (Hendb : Core.endTime (window buf) = QcBuffer.endTime buf)
    by reflexivity.
  (* the front record is valid and inside the window *)
  assert (Hf : validEntry front = true /\
               Core.contains (window buf) (recordWindow front) = true).
  { destruct buf as [| f rest]; [ discriminate | ].
    injection Hfront as ->. simpl in Hvalid, Hin.
    apply andb_prop in Hvalid as [Hv _]. apply andb_prop in Hin as [Hi _].
    rewrite Hreal in Hi. simpl in Hi. split; assumption. }
  destruct Hf as [Hv Hi].
  destruct (validEntry_real front Hv Hreal) as [Hfs Hlen].
  unfold Core.contains in Hi. apply andb_prop in Hi as [Hi1 Hi2].
  apply Z.leb_le in Hi1, Hi2.
  change (Core.endTime (recordWindow front)) with (recordEndTime front) in Hi2.
  change (Core.startTime (recordWindow front))
    with (recordStartTime front) in Hi1.
  assert (Hws : Core.startTime (window buf) = recordStartTime front).
  { unfold window, QcBuffer.startTime. simpl. now rewrite Hfront. }
  (* the estimate grows *)
  assert (Hest' : estimated buf front <= estimated (buf ++ [t]) front).
  { unfold estimated. apply round_mono_nonneg.
    - apply samples_nonneg; [ exact Hfs | ].
      intros Hpos. specialize (Hlen Hpos). unfold Core.length. lia.
    - pose proof (toDouble_le (Core.length (window buf))
                    (Core.length (window (buf ++ [t])))) as Hd.
      unfold Core.length in Hd at 1 2. rewrite Hstart, Hend in Hd.
      specialize (Hd ltac:(lia)).
      set (a := Core.toDouble (Core.length (window buf))) in *.
      set (b := Core.toDouble (Core.length (window (buf ++ [t])))) in *.
      nra. }
  (* the loop does the same on both buffers *)
  assert (Hscan : scan (buf ++ [t]) front = scan buf front).
  { unfold scan. rewrite loop_app_timeouts by reflexivity.
    apply loop_inside; [ | exact Hin ].
    apply (allInside_wider (window buf)); [ lia | lia | exact Hin ]. }
  unfold availability. rewrite Hfront', Hfront, Hreal, Hscan. simpl at_.
  split; [ reflexivity | ]. split; [ reflexivity | ].
  apply ratio_antitone; [ | exact Hest | exact Hest' ].
  unfold scan. apply loop_effective_nonneg; try assumption; [ lia | simpl; lia ].
Qed.

End Stall.

Lemma stalled_tick_lowers_availability_witness :
  let p := plugin0 tickingHost S2 in
  fle (at_ (availability (_qcBuffer (exec timeoutTask p))) 0)
      (at_ (availability S2) 0) = true.
Proof.
  intros p.
  apply (@stalled_tick_lowers_availability tickingHost p (real 0 1000000 100));
    try reflexivity.
  vm_compute. discriminate.
Defined.

(** ** What a tick of the timer does *)

Section Ticks.

Context `{Host}.

Lemma timeoutTask_nonempty (p : Plugin) :
  _qcBuffer p <> [] ->
  let buf := _qcBuffer p ++ [injected p] in
  exec timeoutTask p =
  {| _qcBuffer := buf;
     _lastRecordEndTime := anchor p;
     _streamID := _streamID p;
     objects :=
       objects p ++
       [quality (_streamID p) (utc (1 + clockReads p)) buf (availability buf) 0;
        quality (_streamID p) (utc (2 + clockReads p)) buf (availability buf) 1;
        quality (_streamID p) (utc (3 + clockReads p)) buf (availability buf) 2];
     clockReads := 4 + clockReads p |}.
Proof.
  intros Hne. destruct (back_nonempty _ Hne) as [bk Hbk].
  assert (Hempty : QcBuffer.empty (_qcBuffer p) = false).
  { destruct (_qcBuffer p); [ contradiction | reflexivity ]. }
  assert (Hfull : forall l (x : QcParameter), QcBuffer.empty (l ++ [x]) = false).
  { intros [| a l] x; reflexivity. }
  unfold injected, anchor. rewrite Hbk. cbv zeta.
  unfold timeoutTask, sendMessages, exec, bind, getBuffer, UTC,
    getLastRecordEndTime, bufferPushBack.
  rewrite Hempty, Hbk.
  destruct (isTimeout bk); cbn -[generateReport availability];
    match goal with
    | |- snd (generateReport ?b ?q) = _ =>
        change (snd (generateReport b q)) with (exec (generateReport b) q);
        rewrite (generateReport_nonempty b q (Hfull _ _))
    end; reflexivity.
Qed.

(** X11: on an empty buffer no number of ticks does anything: no entry is
    appended, the clock is not read and nothing is reported. *)
Theorem ticks_on_empty_buffer (n : nat) (p : Plugin) :
  _qcBuffer p = [] -> ticks n p = p.
Proof.
  intros Hnil. induction n as [| n IH]; [ reflexivity | ].
  simpl. assert (Hstep : exec timeoutTask p = p).
  { unfold timeoutTask, exec, bind, getBuffer. now rewrite Hnil. }
  now rewrite Hstep.
Qed.

(** X12: a tick on a non-empty buffer reads the clock four times and
    pushes exactly three reports after the ones already pushed.  The
    reports describe the buffer with the new timeout entry: they start at
    the buffer's start time and end at the first of the four readings, the
    end of the timeout entry. *)
Theorem tick_reports_up_to_now (p : Plugin) :
  _qcBuffer p <> [] ->
  let p' := exec timeoutTask p in
  clockReads p' = (4 + clockReads p)%nat /\
  exists r0 r1 r2,
    objects p' = objects p ++ [r0; r1; r2] /\
    Forall (fun r =>
              DataModel.start r = QcBuffer.startTime (_qcBuffer p) /\
              DataModel.end_ r = utc (clockReads p) /\
              DataModel.windowLength r =
                Core.toDouble (utc (clockReads p)
                               - QcBuffer.startTime (_qcBuffer p)))
           [r0; r1; r2].
Proof.
  intros Hne p'. subst p'. rewrite timeoutTask_nonempty by assumption.
  split; [ reflexivity | ].
  do 3 eexists. split; [ reflexivity | ].
  assert (Hstart : QcBuffer.startTime (_qcBuffer p ++ [injected p])
                   = QcBuffer.startTime (_qcBuffer p)).
  { unfold QcBuffer.startTime. now rewrite front_app. }
  assert (Hend : QcBuffer.endTime (_qcBuffer p ++ [injected p])
                 = utc (clockReads p)).
  { unfold QcBuffer.endTime.
    change (_qcBuffer p ++ [injected p])
      with (QcBuffer.push_back (_qcBuffer p) (injected p)).
    now rewrite back_push. }
  repeat constructor; simpl; unfold QcBuffer.length;
    rewrite ?Hstart, ?Hend; reflexivity.
Qed.

(** X13: [n] ticks on a non-empty buffer push [3 n] reports after the ones
    already pushed, none of which is dropped, and read the clock [4 n]
    times. *)
Theorem ticks_emit_three_reports_each (n : nat) (p : Plugin) :
  _qcBuffer p <> [] ->
  clockReads (ticks n p) = (4 * n + clockReads p)%nat /\
  exists emitted,
    objects (ticks n p) = objects p ++ emitted /\
    List.length emitted = (3 * n)%nat.
Proof.
  revert p. induction n as [| n IH]; intros p Hne.
  - split; [ reflexivity | ]. exists []. now rewrite app_nil_r.
  - simpl ticks.
    pose proof (timeoutTask_nonempty p Hne) as Hstep. cbv zeta in Hstep.
    assert (Hne' : _qcBuffer (exec timeoutTask p) <> []).
    { rewrite Hstep. simpl.
      intros Hnil. apply app_eq_nil in Hnil as [_ Hnil]. discriminate. }
    assert (Hclock1 : clockReads (exec timeoutTask p) = (4 + clockReads p)%nat)
      by (rewrite Hstep; reflexivity).
    assert (Hobjs1 : exists three,
               objects (exec timeoutTask p) = objects p ++ three /\
               List.length three = 3%nat).
    { rewrite Hstep. eexists. split; reflexivity. }
    destruct Hobjs1 as [three [Hobjs1 Hlen1]].
    destruct (IH (exec timeoutTask p) Hne') as [Hclock [emitted [Hobjs Hlen]]].
    split; [ lia | ].
    exists (three ++ emitted). split.
    + rewrite Hobjs, Hobjs1. now rewrite app_assoc.
    + rewrite length_app, Hlen, Hlen1. lia.
Qed.

End Ticks.

Lemma ticks_on_empty_buffer_witness :
  ticks 5 (plugin0 tickingHost []) = plugin0 tickingHost [].
Proof.
  apply (@ticks_on_empty_buffer tickingHost 5 (plugin0 tickingHost [])).
  reflexivity.
Defined.

Lemma tick_reports_up_to_now_witness :
  clockReads (exec timeoutTask (plugin0 tickingHost S2)) = 4%nat.
Proof.
  exact (proj1 (@tick_reports_up_to_now tickingHost (plugin0 tickingHost S2)
                  ltac:(discriminate))).
Defined.

Lemma ticks_emit_three_reports_each_witness :
  clockReads (ticks 2 (plugin0 tickingHost S2)) = 8%nat.
Proof.
  exact (proj1 (@ticks_emit_three_reports_each tickingHost 2
                  (plugin0 tickingHost S2) ltac:(discriminate))).
Defined.

(** ** scautopick: reading the configuration *)

Lemma tryAssign_twice {A : Type} (got : option A) (member : A) :
  Picker.tryAssign got (Picker.tryAssign got member)
  = Picker.tryAssign got member.
Proof. destruct got; reflexivity. Qed.

Lemma tryReplace_twice (got : option (list string)) (set : Picker.StringSet) :
  Picker.tryReplace got (Picker.tryReplace got set)
  = Picker.tryReplace got set.
Proof. destruct got; reflexivity. Qed.

Lemma insertAll_In (x : string) (xs : list string) (set : Picker.StringSet) :
  In x (Picker.insertAll xs set) <-> In x xs \/ In x set.
Proof.
  unfold Picker.insertAll. revert set.
  induction xs as [| y xs IH]; intros set; simpl.
  - tauto.
  - rewrite IH. unfold Picker.insert. rewrite set_add_iff.
    intuition congruence.
Qed.

Lemma insertAll_NoDup (xs : list string) (set : Picker.StringSet) :
  NoDup set -> NoDup (Picker.insertAll xs set).
Proof.
  unfold Picker.insertAll. revert set.
  induction xs as [| y xs IH]; intros set Hset; simpl.
  - exact Hset.
  - apply IH. unfold Picker.insert. now apply set_add_nodup.
Qed.

(** X14: an application that sets none of the options leaves every member
    of the configuration as it was: each exception is caught and nothing is
    assigned. *)
Theorem init_without_options (app : Picker.Application) (c : Picker.Config) :
  (forall key, Picker.configGetString app key = None) ->
  (forall key, Picker.configGetBool app key = None) ->
  (forall key, Picker.configGetDouble app key = None) ->
  (forall key, Picker.configGetStrings app key = None) ->
  Picker.init app c = c.
Proof.
  intros Hstring Hbool Hdouble Hstrings. unfold Picker.init.
  repeat rewrite Hstring. repeat rewrite Hbool.
  repeat rewrite Hdouble. repeat rewrite Hstrings.
  destruct c. reflexivity.
Qed.

Lemma init_without_options_witness :
  Picker.init Picker.noOptions (Picker.newConfig false)
  = Picker.newConfig false.
Proof.
  apply (init_without_options Picker.noOptions (Picker.newConfig false));
    reflexivity.
Defined.

(** X15: reading the same application twice is the same as reading it
    once. *)
Theorem init_is_idempotent (app : Picker.Application) (c : Picker.Config) :
  Picker.init app (Picker.init app c) = Picker.init app c.
Proof.
  unfold Picker.init. simpl.
  rewrite !tryAssign_twice, !tryReplace_twice. reflexivity.
Qed.

(** X16: after construction and [init], the amplitude types to compute are
    exactly the strings of the option "amplitudes" when it is set, each
    held once, the defaults MLv, mb and mB being dropped even when the
    option is the empty list; they are the three defaults when it is not
    set. *)
Theorem amplitudes_option_replaces_defaults
    (app : Picker.Application) (d : bool) (x : string) :
  let types := Picker.amplitudeList (Picker.init app (Picker.newConfig d)) in
  NoDup types /\
  (In x types <->
   match Picker.configGetStrings app "amplitudes" with
   | Some given => In x given
   | None => x = "MLv"%string \/ x = "mb"%string \/ x = "mB"%string
   end).
Proof.
  cbv zeta. unfold Picker.init. cbn [Picker.amplitudeList].
  destruct (Picker.configGetStrings app "amplitudes") as [given | ];
    cbn [Picker.tryReplace].
  - split.
    + apply insertAll_NoDup. constructor.
    + rewrite insertAll_In. simpl. tauto.
  - change (Picker.amplitudeList (Picker.newConfig d))
      with ["MLv"; "mb"; "mB"]%string.
    split.
    + repeat constructor; simpl; intuition discriminate.
    + simpl. intuition congruence.
Qed.

(** X17: after construction, [init] on the application and then [init] on
    the command line, the configuration does not depend on the value that
    the constructor left undecided in [dumpRecords]; detections are sent
    exactly when the command line asks for it or the option sendDetections
    is set to true, so that the command line can switch them on and never
    off; and the picker is offline exactly when the command line has one
    of the options offline and ep. *)
Theorem startup_is_determined
    (app : Picker.Application) (commandline : Picker.CommandLine)
    (d d' : bool) :
  let startup d0 :=
    Picker.init_commandline commandline
      (Picker.init app (Picker.newConfig d0)) in
  startup d = startup d' /\
  (Picker.sendDetections (startup d) = true <->
   Picker.hasOption commandline "send-detections" = true \/
   Picker.configGetBool app "sendDetections" = Some true) /\
  (Picker.offline (startup d) = true <->
   Picker.hasOption commandline "offline" = true \/
   Picker.hasOption commandline "ep" = true).
Proof.
  cbv zeta. split; [ reflexivity | ].
  unfold Picker.init_commandline, Picker.init. simpl. split.
  - destruct (Picker.hasOption commandline "send-detections").
    + intuition.
    + destruct (Picker.configGetBool app "sendDetections") as [[ | ] | ];
        simpl; intuition congruence.
  - split; [ apply orb_prop | ].
    intros [-> | ->]; [ reflexivity | apply orb_true_r ].
Qed.

(** ** The origin of time *)

Section Shift.

Variable delta : Z.

Lemma sub_shift (a b : Z) : a + delta - (b + delta) = a - b.
Proof. lia. Qed.

Lemma leb_shift (a b : Z) : (a + delta <=? b + delta) = (a <=? b).
Proof.
  destruct (Z.leb_spec a b); [ apply Z.leb_le | apply Z.leb_gt ]; lia.
Qed.

Lemma ltb_shift (a b : Z) : (a + delta <? b + delta) = (a <? b).
Proof.
  destruct (Z.ltb_spec a b); [ apply Z.ltb_lt | apply Z.ltb_ge ]; lia.
Qed.

Lemma detect_shifted qcp s s' :
  shiftedState delta s s' ->
  shiftedState delta (detect qcp s) (detect (shift delta qcp) s').
Proof.
  intros [Heff [Hgap [Hovl Hlast]]]. unfold detect.
  destruct Hlast as [[H0 H0'] | [Hn [Hn' Hd]]].
  - rewrite H0, H0'. simpl. repeat split; try assumption. now left.
  - apply Z.eqb_neq in Hn, Hn'. rewrite Hn, Hn'. cbn [negb]. cbv zeta.
    cbn [recordStartTime recordSamplingFrequency shift].
    rewrite Hd, sub_shift, Hgap, Hovl.
    apply Z.eqb_neq in Hn, Hn'.
    split; [ exact Heff | ]. split; [ reflexivity | ].
    split; [ reflexivity | ].
    right. simpl. split; [ exact Hn | ]. split; [ | reflexivity ].
    rewrite <- Hd. exact Hn'.
Qed.

Lemma body_shifted tw est qcp s s' :
  isTimeout qcp || (negb (recordEndTime qcp =? 0)
                    && negb (recordEndTime qcp =? - delta)) = true ->
  shiftedState delta s s' ->
  snd (body (shiftWindow delta tw) est (shift delta qcp) s')
    = snd (body tw est qcp s) /\
  shiftedState delta (fst (body tw est qcp s))
    (fst (body (shiftWindow delta tw) est (shift delta qcp) s')).
Proof.
  intros Hend Hs. unfold body.
  change (isTimeout (shift delta qcp)) with (isTimeout qcp).
  destruct (isTimeout qcp); [ split; [ reflexivity | exact Hs ] | ].
  simpl in Hend. apply andb_prop in Hend as [He0 Hed].
  apply negb_true_iff in He0, Hed. apply Z.eqb_neq in He0, Hed.
  pose proof (detect_shifted qcp s s' Hs) as [Heff [Hgap [Hovl _]]].
  cbv zeta. unfold Core.contains, Core.overlaps, Core.length, shiftWindow.
  cbn [Core.startTime Core.endTime recordStartTime recordEndTime
       recordSamplingFrequency shift].
  rewrite !leb_shift, !ltb_shift, !sub_shift.
  set (d := detect qcp s) in *. set (d' := detect (shift delta qcp) s') in *.
  assert (Hlast : shiftedState delta
                    (setLastTime (recordEndTime qcp) d)
                    (setLastTime (recordEndTime qcp + delta) d')).
  { repeat split; try assumption. right. simpl.
    unfold Core.Time0. repeat split; [ assumption | lia ]. }
  clearbody d d'.
  destruct Hlast as [Heff1 [Hgap1 [Hovl1 Hl1]]].
  repeat match goal with
         | |- context [if ?c then _ else _] => destruct c
         end;
    (split; [ reflexivity | ]); cbn [fst];
    repeat split; simpl in *; try assumption; try congruence.
Qed.

Lemma loop_shifted tw est buf :
  noEndAt 0 buf = true -> noEndAt (- delta) buf = true ->
  forall s s', shiftedState delta s s' ->
  shiftedState delta (loop tw est buf s)
    (loop (shiftWindow delta tw) est (map (shift delta) buf) s').
Proof.
  induction buf as [| qcp buf IH]; intros H0 Hd s s' Hs; [ exact Hs | ].
  simpl in H0, Hd. apply andb_prop in H0 as [Hq0 H0].
  apply andb_prop in Hd as [Hqd Hd].
  assert (Hend : isTimeout qcp
                 || (negb (recordEndTime qcp =? 0)
                     && negb (recordEndTime qcp =? - delta)) = true).
  { destruct (isTimeout qcp); [ reflexivity | ]. simpl in *.
    now rewrite Hq0, Hqd. }
  destruct (body_shifted tw est qcp s s' Hend Hs) as [Hflow Hnext].
  simpl.
  destruct (body tw est qcp s) as [s1 f].
  destruct (body (shiftWindow delta tw) est (shift delta qcp) s') as [s1' f'].
  simpl in Hflow, Hnext. subst f'.
  destruct f; [ now apply IH | exact Hnext ].
Qed.

Lemma window_shifted qcp buf :
  window (map (shift delta) (qcp :: buf)) = shiftWindow delta (window (qcp :: buf)).
Proof.
  unfold window, shiftWindow. cbn [Core.startTime Core.endTime].
  f_equal.
  unfold QcBuffer.endTime, QcBuffer.back. rewrite <- map_rev.
  destruct (rev (qcp :: buf)) as [| b l] eqn:Hrev; [ | reflexivity ].
  apply (f_equal (@rev QcParameter)) in Hrev.
  rewrite rev_involutive in Hrev. discriminate.
Qed.

End Shift.

(** X18: the result does not depend on the origin of time, as long as no
    real record ends at the zero time, which the loop takes for "no
    previous record": moving every time of the buffer by the same amount
    gives the same vector, provided no real record ends at the zero time
    before or after the move. *)
Theorem origin_of_time_is_irrelevant (delta : Z) (buf : QcBuffer.t) :
  noEndAt 0 buf = true ->
  noEndAt (- delta) buf = true ->
  availability (map (shift delta) buf) = availability buf.
Proof.
  intros H0 Hd. destruct buf as [| qcp buf]; [ reflexivity | ].
  unfold availability. cbn [map QcBuffer.front hd_error].
  change (isTimeout (shift delta qcp)) with (isTimeout qcp).
  destruct (isTimeout qcp); [ reflexivity | ].
  assert (Hest : estimated (map (shift delta) (qcp :: buf)) (shift delta qcp)
                 = estimated (qcp :: buf) qcp).
  { unfold estimated. rewrite window_shifted.
    unfold Core.length, shiftWindow. cbn [Core.startTime Core.endTime].
    now rewrite sub_shift. }
  assert (Hscan : shiftedState delta (scan (qcp :: buf) qcp)
                    (scan (map (shift delta) (qcp :: buf)) (shift delta qcp))).
  { unfold scan. rewrite Hest, window_shifted.
    apply loop_shifted; try assumption.
    repeat split. now left. }
  destruct Hscan as [Heff [Hgap [Hovl _]]].
  change (map (shift delta) (qcp :: buf))
    with (shift delta qcp :: map (shift delta) buf) in *.
  now rewrite Hest, Heff, Hgap, Hovl.
Qed.

Lemma origin_of_time_is_irrelevant_witness :
  availability (map (shift 86400000000) S2) = availability S2.
Proof.
  apply (origin_of_time_is_irrelevant 86400000000 S2); reflexivity.
Defined.
